(** * lbry.go: the DHT facade (package dht) and the JSON-RPC response
      decoding helpers (package jsonrpc)

    A shallow embedding of

    - [dht.go]: [Config], [NewStandardConfig], [New], [join], [listen],
      [FindNode] and the maintenance branch of [Run];
    - [jsonrpc/daemon_response_types.go]: [getEnumVal] and [fixDecodeProto];
    - the two pieces of the Go standard library these functions call and
      whose results decide their behaviour: [encoding/hex] and
      [strconv.ParseInt] (through [json.Number.Int64]).

    Go strings are byte strings, so they are [string]s here (one [ascii] per
    byte).  Go's [int], [int32], [int64] and [uint64] are [Z] with the
    wrap-around written out where the code can reach it.  A Go function that
    returns [(v, err)] returns a pair whose second component is an
    [option error] ([None] is [nil]).

    Everything the DHT facade does to the rest of the package and to the
    outside world (peers manager, routing table, transaction manager, the
    socket, the timers, the logger) is recorded as a trace of events, in
    program order. *)

From Stdlib Require Import ZArith Ascii String List Bool Lia.
From stdpp Require Import base option list strings gmap.
From Equations Require Import Equations.

Local Open Scope string_scope.
Local Open Scope list_scope.
Local Open Scope Z_scope.

(** ** Go values shared by both packages *)

(** The numeric value of a byte, and the byte of a value ([byte(v)]). *)
Definition byte_val (c : ascii) : Z := Z.of_N (N_of_ascii c).
Definition byte_of (v : Z) : ascii := ascii_of_N (Z.to_N (v mod 256)).

(** [s[i]] where the program guarantees that [i] is in range. *)
Definition index (s : string) (i : Z) : ascii :=
  match String.get (Z.to_nat i) s with
  | Some c => c
  | None => "000"%char
  end.

(** [len(s)] *)
Definition len (s : string) : Z := Z.of_nat (String.length s).

Inductive strconv_err := ErrSyntax | ErrRange.

(** The values of Go's [error] interface that these functions produce. *)
Inductive error :=
| errors_New (msg : string)
| hex_InvalidByteError (b : ascii)
| hex_ErrLength
| strconv_NumError (func num : string) (err : strconv_err).

(** ** encoding/hex

    [Decode] as in Go 1.10 and later; earlier versions differ only in what
    they return next to an error, which [FindNode] drops. *)
Module hex.

Definition hextable : string := "0123456789abcdef".

(** [fromHexChar] converts a hex character into its value and a success
    flag. *)
Definition fromHexChar (c : ascii) : Z * bool :=
  let v := byte_val c in
  if (byte_val "0" <=? v) && (v <=? byte_val "9") then (v - byte_val "0", true)
  else if (byte_val "a" <=? v) && (v <=? byte_val "f") then (v - byte_val "a" + 10, true)
  else if (byte_val "A" <=? v) && (v <=? byte_val "F") then (v - byte_val "A" + 10, true)
  else (0, false).

(** [Encode]: two characters of [hextable] per source byte. *)
Fixpoint Encode (src : string) : string :=
  match src with
  | EmptyString => EmptyString
  | String v rest =>
      String (index hextable (Z.shiftr (byte_val v) 4))
        (String (index hextable (Z.land (byte_val v) 15)) (Encode rest))
  end.

Definition EncodeToString (src : string) : string := Encode src.

(** [Decode] walks the source two characters at a time ([j += 2]); the
    first component is [dst[:i]], the bytes written before it stopped.  A
    last unpaired character is reported as invalid if it is, as a bad
    length otherwise. *)
Fixpoint Decode (src : string) : string * option error :=
  match src with
  | EmptyString => (EmptyString, None)
  | String p EmptyString =>
      if snd (fromHexChar p) then (EmptyString, Some hex_ErrLength)
      else (EmptyString, Some (hex_InvalidByteError p))
  | String p (String q rest) =>
      let (a, ok) := fromHexChar p in
      if negb ok then (EmptyString, Some (hex_InvalidByteError p))
      else
        let (b, ok) := fromHexChar q in
        if negb ok then (EmptyString, Some (hex_InvalidByteError q))
        else
          let (dst, err) := Decode rest in
          (String (byte_of (Z.lor (Z.shiftl a 4) b)) dst, err)
  end.

(** [DecodeString] returns the bytes decoded before the error, and the
    error. *)
Definition DecodeString (s : string) : string * option error := Decode s.

(** What "valid hex" means: every character is a hexadecimal digit and
    they come in pairs. *)
Definition is_hex_digit (c : ascii) : bool :=
  match c with
  | "0" | "1" | "2" | "3" | "4" | "5" | "6" | "7" | "8" | "9"
  | "a" | "b" | "c" | "d" | "e" | "f"
  | "A" | "B" | "C" | "D" | "E" | "F" => true
  | _ => false
  end%char.

Fixpoint all_hex_digits (s : string) : bool :=
  match s with
  | EmptyString => true
  | String c rest => is_hex_digit c && all_hex_digits rest
  end.

Definition valid_hex (s : string) : bool :=
  all_hex_digits s && Nat.even (String.length s).

End hex.

(** ** strconv.ParseInt(s, 10, 64), as [json.Number.Int64] calls it *)
Module strconv.

Definition base : Z := 10.
Definition bitSize : Z := 64.
Definition maxUint64 : Z := 2 ^ 64 - 1.

Definition syntaxError (fn str : string) : error := strconv_NumError fn str ErrSyntax.
Definition rangeError (fn str : string) : error := strconv_NumError fn str ErrRange.

(** [lower(c)] is [c | ('x' - 'X')]. *)
Definition lower (c : ascii) : Z := Z.lor (byte_val c) (byte_val "x" - byte_val "X").

(** The [switch] on a byte of the loop of [ParseUint]: the digit it stands
    for, in any base up to 36. *)
Definition digit_of (c : ascii) : option Z :=
  if (byte_val "0" <=? byte_val c) && (byte_val c <=? byte_val "9")
  then Some (byte_val c - byte_val "0")
  else if (byte_val "a" <=? lower c) && (lower c <=? byte_val "z")
  then Some (lower c - byte_val "a" + 10)
  else None.

(** [ParseUint]'s loop over the bytes of [s], with the accumulator [n] a
    uint64.  [s0] is the whole argument, for the error value.  With a base
    other than 0 an underscore is no separator. *)
Fixpoint ParseUint_loop (s0 : string) (n : Z) (s : string) : Z * option error :=
  match s with
  | EmptyString => (n, None)
  | String c rest =>
      match digit_of c with
      | None => (0, Some (syntaxError "ParseUint" s0))
      | Some d =>
          if d >=? base then (0, Some (syntaxError "ParseUint" s0))
          else if n >=? maxUint64 / 10 + 1
          then (2 ^ bitSize - 1, Some (rangeError "ParseUint" s0))
          else
            let n' := (n * base) mod 2 ^ 64 in
            let n1 := (n' + d) mod 2 ^ 64 in
            if (n1 <? n') || (n1 >? 2 ^ bitSize - 1)
            then (2 ^ bitSize - 1, Some (rangeError "ParseUint" s0))
            else ParseUint_loop s0 n1 rest
      end
  end.

Definition ParseUint (s : string) : Z * option error :=
  match s with
  | EmptyString => (0, Some (syntaxError "ParseUint" s))
  | _ => ParseUint_loop s 0 s
  end.

(** [int64(u)] for a uint64 [u], and negation on int64. *)
Definition int64 (z : Z) : Z := (z + 2 ^ 63) mod 2 ^ 64 - 2 ^ 63.

(** The second half of [ParseInt]: convert unsigned and check range. *)
Definition ParseInt_unsigned (s0 : string) (neg : bool) (s : string) : Z * option error :=
  let (un, err) := ParseUint s in
  match err with
  | Some (strconv_NumError _ _ ErrSyntax) =>
      (0, Some (strconv_NumError "ParseInt" s0 ErrSyntax))
  | Some (errors_New _) | Some (hex_InvalidByteError _) | Some hex_ErrLength =>
      (0, err)          (* ParseUint returns NumErrors only *)
  | Some (strconv_NumError _ _ ErrRange) | None =>
      let cutoff := 2 ^ (bitSize - 1) in
      if negb neg && (un >=? cutoff)
      then (cutoff - 1, Some (rangeError "ParseInt" s0))
      else if neg && (un >? cutoff)
      then (- cutoff, Some (rangeError "ParseInt" s0))
      else
        let n := int64 un in
        let n := if neg then int64 (- n) else n in
        (n, None)
  end.

(** The first half: empty string bad, pick off leading sign. *)
Definition ParseInt (s : string) : Z * option error :=
  match s with
  | EmptyString => (0, Some (syntaxError "ParseInt" s))
  | String c rest =>
      let s0 := s in
      let '(neg, s) :=
        if Ascii.eqb c "+" then (false, rest)
        else if Ascii.eqb c "-" then (true, rest)
        else (false, s) in
      ParseInt_unsigned s0 neg s
  end.

(** The other side of the comparison, written from the words "representable
    as a 64-bit integer" and not from [ParseInt]: what a literal says,
    without any bound.  A literal is an optional sign and then at least one
    decimal digit. *)
Definition is_digit (c : ascii) : bool :=
  match c with
  | "0" | "1" | "2" | "3" | "4" | "5" | "6" | "7" | "8" | "9" => true
  | _ => false
  end%char.

Fixpoint digits_value (acc : Z) (s : string) : option Z :=
  match s with
  | EmptyString => Some acc
  | String c rest =>
      if is_digit c then digits_value (10 * acc + (byte_val c - 48)) rest
      else None
  end.

Definition unsigned_literal (s : string) : option Z :=
  match s with
  | EmptyString => None
  | _ => digits_value 0 s
  end.

Definition integer_literal (s : string) : option Z :=
  match s with
  | EmptyString => None
  | String c rest =>
      if Ascii.eqb c "+" then unsigned_literal rest
      else if Ascii.eqb c "-" then Z.opp <$> unsigned_literal rest
      else unsigned_literal s
  end.

(** The literal denotes an integer that fits Go's int64. *)
Definition representable_int64 (s : string) : Prop :=
  ∃ v, integer_literal s = Some v ∧ - 2 ^ 63 <= v < 2 ^ 63.

End strconv.

(** ** package jsonrpc *)
Module jsonrpc.

(** [reflect.Type], as far as [fixDecodeProto] tells types apart. *)
Inductive rtype :=
  | t_uint64 | t_bytes
  | t_Metadata_Version | t_Metadata_Language
  | t_Stream_Version
  | t_Claim_Version | t_Claim_ClaimType
  | t_Fee_Version | t_Fee_Currency
  | t_Source_Version | t_Source_SourceTypes
  | t_KeyType
  | t_Signature_Version
  | t_Certificate_Version
  | t_other (name : string).

  (** A value of type [interface{}]: what the JSON decoder hands over, and
      what [fixDecodeProto] hands back. *)
#[local] Set Warnings "-register-all".
Inductive value :=
  | v_nil
  | v_bool (b : bool)
  | v_float64 (bits : Z)
  | v_string (s : string)
  | v_Number (n : string)                    (* json.Number *)
  | v_slice (l : list value)                 (* []interface{} *)
  | v_map (m : list (string * value))        (* map[string]interface{} *)
  | v_uint64 (n : Z)
  | v_bytes (b : string)                     (* []byte *)
  | v_enum (t : rtype) (n : Z).              (* lbryschema.T(n), an int32 *)

(** [json.Number.Int64] *)
Definition Number_Int64 (n : string) : Z * option error := strconv.ParseInt n.

Definition getEnumVal (enum : gmap string Z) (data : value) : Z * option error :=
  match data with
  | v_string s =>
      match enum !! s with
      | Some val => (val, None)
      | None => (0, Some (errors_New "invalid enum key"))
      end
  | _ => (0, Some (errors_New "expected a string"))
  end.

(** The name-to-number tables of the generated package [lbryschema/pb]. *)
Class lbryschema := {
    Metadata_Version_value : gmap string Z;
    Metadata_Language_value : gmap string Z;
    Stream_Version_value : gmap string Z;
    Claim_Version_value : gmap string Z;
    Claim_ClaimType_value : gmap string Z;
    Fee_Version_value : gmap string Z;
    Fee_Currency_value : gmap string Z;
    Source_Version_value : gmap string Z;
    Source_SourceTypes_value : gmap string Z;
    KeyType_value : gmap string Z;
    Signature_Version_value : gmap string Z;
    Certificate_Version_value : gmap string Z;
  }.

Section fixDecodeProto.
Context `{lbryschema}.

Definition enum_case (t : rtype) (enum : gmap string Z) (data : value)
  : value * option error :=
  let (val, err) := getEnumVal enum data in (v_enum t val, err).

Definition fixDecodeProto (src dest : rtype) (data : value) : value * option error :=
  match dest with
  | t_uint64 =>
      match data with
      | v_Number n =>
          let (val, err) := Number_Int64 n in
          match err with
          | Some e => (v_nil, Some e)
          | None =>
              if val <? 0 then (v_nil, Some (errors_New "must be unsigned int"))
              else (v_uint64 (val mod 2 ^ 64), None)
          end
      | _ => (data, None)
      end
  | t_bytes =>
      match data with
      | v_string s => (v_bytes s, None)
      | _ => (data, None)
      end
  | t_Metadata_Version => enum_case dest Metadata_Version_value data
  | t_Metadata_Language => enum_case dest Metadata_Language_value data
  | t_Stream_Version => enum_case dest Stream_Version_value data
  | t_Claim_Version => enum_case dest Claim_Version_value data
  | t_Claim_ClaimType => enum_case dest Claim_ClaimType_value data
  | t_Fee_Version => enum_case dest Fee_Version_value data
  | t_Fee_Currency => enum_case dest Fee_Currency_value data
  | t_Source_Version => enum_case dest Source_Version_value data
  | t_Source_SourceTypes => enum_case dest Source_SourceTypes_value data
  | t_KeyType => enum_case dest KeyType_value data
  | t_Signature_Version => enum_case dest Signature_Version_value data
  | t_Certificate_Version => enum_case dest Certificate_Version_value data
  | t_other _ => (data, None)
  end.
End fixDecodeProto.

End jsonrpc.

(** Tables in the style of the generated ones, to run the functions on. *)
Module jsonrpc_example.
Import jsonrpc.

Definition Metadata_Version_example : gmap string Z :=
  {[ "UNKNOWN_VERSION" := 0; "_0_0_1" := 1; "_0_0_2" := 2; "_0_0_3" := 3; "_0_1_0" := 4 ]}.

Definition lbryschema_example : lbryschema := {|
  Metadata_Version_value := Metadata_Version_example;
  Metadata_Language_value := {[ "UNKNOWN_LANGUAGE" := 0; "en" := 1 ]};
  Stream_Version_value := {[ "UNKNOWN_VERSION" := 0; "_0_0_1" := 1 ]};
  Claim_Version_value := {[ "UNKNOWN_VERSION" := 0; "_0_0_1" := 1 ]};
  Claim_ClaimType_value := {[ "UNKNOWN_CLAIM_TYPE" := 0; "streamType" := 1; "certificateType" := 2 ]};
  Fee_Version_value := {[ "UNKNOWN_VERSION" := 0; "_0_0_1" := 1 ]};
  Fee_Currency_value := {[ "UNKNOWN_CURRENCY" := 0; "LBC" := 1; "BTC" := 2; "USD" := 3 ]};
  Source_Version_value := {[ "UNKNOWN_VERSION" := 0; "_0_0_1" := 1 ]};
  Source_SourceTypes_value := {[ "UNKNOWN_SOURCE_TYPE" := 0; "lbry_sd_hash" := 1 ]};
  KeyType_value := {[ "UNKNOWN_PUBLIC_KEY_TYPE" := 0; "NIST256p" := 1 ]};
  Signature_Version_value := {[ "UNKNOWN_VERSION" := 0; "_0_0_1" := 1 ]};
  Certificate_Version_value := {[ "UNKNOWN_VERSION" := 0; "_0_0_1" := 1 ]};
|}.

End jsonrpc_example.

(** ** package time and package net *)
Module time.
(** A [Duration] is a number of nanoseconds. *)
Definition Nanosecond : Z := 1.
Definition Microsecond : Z := 1000 * Nanosecond.
Definition Millisecond : Z := 1000 * Microsecond.
Definition Second : Z := 1000 * Millisecond.
Definition Minute : Z := 60 * Second.
End time.

Module net.
Record UDPAddr := { IP : string; Port : Z; Zone : string }.
End net.

(** ** package dht *)
Module dht.

Definition MaxUint32 : Z := 2 ^ 32 - 1.          (* math.MaxUint32 *)

(** The types package dht declares in its other files. *)
Class Types := {
    bitmap : Type;
    Peer : Type;
    peersManager : Type;
    routingTable : Type;
    transactionManager : Type;
    tokenManager : Type;
    UDPConn : Type;
  }.

(** Modelled from the spec: the struct [node] is declared in another file
    of the package; this one uses its fields [id] and [addr], both
    pointers.  "A bootstrap-only reference may exist with no ID yet." *)
Record node `{Types} := { id : option bitmap; addr : option net.UDPAddr }.

(** What the rest of package dht and the resolver give this file.
    Pointers that may be nil are [option]s, and a method with a pointer
    receiver takes the [option].  These functions are taken as they come:
    a run in which one of them panics is not a run of this model.
    [newNode] returns a node whenever it returns no error. *)
Class Package `{Types} := {
    nodeIDLength : Z;
    newNode : string → string → string → node * option error;
    bitmap_RawString : option bitmap → string;
    newBitmapFromString : string → option bitmap;
    peersManager_GetPeers : option peersManager → string → Z → list Peer;
    routingTable_GetNeighbors : option routingTable → option bitmap → Z → list node;
    routingTable_Len : option routingTable → Z;
    transactionManager_len : option transactionManager → Z;
    (** [net.ResolveUDPAddr(network, address)], whatever the resolver
        answers *)
    ResolveUDPAddr : string → string → option net.UDPAddr * option error;
  }.

Record Config := {
    K : Z;
    Network : string;
    Address : string;
    PrimeNodes : list string;
    KBucketExpiredAfter : Z;
    NodeExpriedAfter : Z;
    CheckKBucketPeriod : Z;
    TokenExpiredAfter : Z;
    MaxTransactionCursor : Z;
    MaxNodes : Z;
    OnGetPeers : option (string → string → Z → unit);
    OnAnnouncePeer : option (string → string → Z → unit);
    Try : Z;
    PacketJobLimit : Z;
    PacketWorkerLimit : Z;
    RefreshNodeNum : Z;
  }.

Definition NewStandardConfig : Config := {|
    K := 8;
    Network := "udp4";
    Address := ":4444";
    PrimeNodes := [ "lbrynet1.lbry.io:4444";
                    "lbrynet2.lbry.io:4444";
                    "lbrynet3.lbry.io:4444" ];
    NodeExpriedAfter := time.Minute * 15;
    KBucketExpiredAfter := time.Minute * 15;
    CheckKBucketPeriod := time.Second * 30;
    TokenExpiredAfter := time.Minute * 10;
    MaxTransactionCursor := MaxUint32;
    MaxNodes := 5000;
    OnGetPeers := None;
    OnAnnouncePeer := None;
    Try := 2;
    PacketJobLimit := 1024;
    PacketWorkerLimit := 256;
    RefreshNodeNum := 8;
  |}.

(** A slice of the listener's one read buffer: [buff[off : off+len]]. *)
Record slice := { s_off : Z; s_len : Z }.

(** A buffered channel: its capacity and what is queued in it. *)
Record chan (A : Type) := { cap : Z; queued : list A }.
Arguments cap {A} _.
Arguments queued {A} _.

Inductive outcome (A : Type) :=
  | Returns (a : A)
  | Panics (why : string).
Arguments Returns {A} _.
Arguments Panics {A} _.

(** [make(chan A, size)] panics on a negative size. *)
Definition make_chan (A : Type) (size : Z) : outcome (chan A) :=
  if size <? 0 then Panics "makechan: size out of range"
  else Returns {| cap := size; queued := [] |}.

Section dht.
Context `{Package}.

(** Modelled from the spec: the struct [packet], "raw received datagram
    {bytes, sourceAddress}"; the bytes are a slice, not a copy. *)
Record packet := { data : slice; raddr : option net.UDPAddr }.

(** The struct [DHT].  [config] is the embedded [*Config]; the fields
    [node], [routingTable], [transactionManager], [peersManager] and
    [tokenManager] carry the prefix [dht_], their names being the names of
    their types. *)
Record DHT := {
    config : Config;
    dht_node : node;
    conn : option UDPConn;
    dht_routingTable : option routingTable;
    dht_transactionManager : option transactionManager;
    dht_peersManager : option peersManager;
    dht_tokenManager : option tokenManager;
    Ready : bool;
    packets : chan packet;
    workerTokens : chan unit;
  }.

(** What the facade does to its surroundings, one event per call. *)
Inductive event :=
  | ev_log (msg : string)                                  (* log.Info *)
  | ev_ResolveUDPAddr (network address : string)
  | ev_findNode (no : node) (target : string)   (* transactionManager.findNode *)
  | ev_GetPeers (key : string) (size : Z)       (* peersManager.GetPeers *)
  | ev_GetNeighbors (target : option bitmap) (size : Z)
  | ev_tick (period : Z)              (* a receive from time.Tick(period) *)
  | ev_ReadFromUDP
  | ev_enqueue (p : packet)                     (* dht.packets <- p *)
  | ev_handle (p : packet)                      (* handle(dht, pkt) *)
  | ev_go_Fresh.                                (* go routingTable.Fresh() *)


Definition trace := list event.

(** [New]: [rnd] is what [randomString(nodeIDLength)] drew. *)
Definition New (config : option Config) (rnd : string) : outcome DHT :=
  let config :=
    match config with
    | None => NewStandardConfig
    | Some c => c
    end in
  let (node, err) := newNode rnd (Network config) (Address config) in
  match err with
  | Some _ => Panics "newNode"
  | None =>
      match make_chan packet (PacketJobLimit config) with
      | Panics why => Panics why
      | Returns pk =>
          match make_chan unit (PacketWorkerLimit config) with
          | Panics why => Panics why
          | Returns wt =>
              Returns {| config := config;
                         dht_node := node;
                         conn := None;
                         dht_routingTable := None;
                         dht_transactionManager := None;
                         dht_peersManager := None;
                         dht_tokenManager := None;
                         Ready := false;
                         packets := pk;
                         workerTokens := wt |}
          end
      end
  end.

(** [join]: one pass over [PrimeNodes]. *)
Fixpoint join_range (dht : DHT) (addrs : list string) : trace :=
  match addrs with
  | [] => []
  | addr :: rest =>
      let (raddr, err) := ResolveUDPAddr (Network (config dht)) addr in
      ev_ResolveUDPAddr (Network (config dht)) addr ::
      match err with
      | Some _ => join_range dht rest                       (* continue *)
      | None =>
          ev_findNode {| id := None; addr := raddr |}
                      (bitmap_RawString (id (dht_node dht)))
          :: join_range dht rest
      end
  end.

Definition join (dht : DHT) : trace := join_range dht (PrimeNodes (config dht)).


(** *** listen *)

(** What one [ReadFromUDP] finds: a datagram and where it came from, or an
    error. *)
Inductive udp_read :=
| datagram (payload : string) (from : option net.UDPAddr)
| read_error (e : error).

(** [make([]byte, n)] *)
Fixpoint make_bytes (n : nat) : string :=
  match n with
  | O => EmptyString
  | S n' => String "000"%char (make_bytes n')
  end.

(** The bytes a slice of the read buffer shows, given what the buffer holds
    now. *)
Definition slice_bytes (buff : string) (s : slice) : string :=
  String.substring (Z.to_nat (s_off s)) (Z.to_nat (s_len s)) buff.

(** [ReadFromUDP(buff)] on a datagram: the first [n] bytes of the buffer are
    overwritten, [n] the smaller of the two lengths; what does not fit is
    lost. *)
Definition ReadFromUDP_copy (buff payload : string) : string * Z :=
  let n := Z.min (len payload) (len buff) in
  (String.append (String.substring 0 (Z.to_nat n) payload)
     (String.substring (Z.to_nat n) (String.length buff - Z.to_nat n) buff), n).

Inductive control := Continue | Break.

(** One turn of the [for] loop of the listening goroutine. *)
Definition listen_body (buff : string) (r : udp_read) : string * trace * control :=
  match r with
  | read_error _ => (buff, [ev_ReadFromUDP], Continue)
  | datagram payload from =>
      let (buff', n) := ReadFromUDP_copy buff payload in
      (buff',
       [ev_ReadFromUDP;
        ev_enqueue {| data := {| s_off := 0; s_len := n |}; raddr := from |}],
       Continue)
  end.

(** The loop over the reads the socket delivers; the third component is what
    the loop left unread. *)
Fixpoint listen_loop (buff : string) (reads : list udp_read)
  : string * trace * list udp_read :=
  match reads with
  | [] => (buff, [], [])
  | r :: rest =>
      let '(buff', t, c) := listen_body buff r in
      match c with
      | Break => (buff', t, rest)
      | Continue =>
          let '(buff'', t', unread) := listen_loop buff' rest in
          (buff'', t ++ t', unread)
      end
  end.

Definition listen (reads : list udp_read) : string * trace * list udp_read :=
  listen_loop (make_bytes (Z.to_nat 8192)) reads.

(** *** FindNode *)

Definition inspect {A : Type} (a : A) : {b : A | a = b} := exist _ a eq_refl.

(** The test that ends the polling loop. *)
Definition poll_break (peers : list Peer) (i : Z) : bool :=
  negb (Z.of_nat (length peers) =? 0) || (i >=? 30).

(** The polling loop: [i] counts the ticks received so far, [later i] is the
    peers manager as the [i]-th tick finds it (other goroutines store peers
    in it meanwhile). *)
Equations poll (later : Z → option peersManager) (key : string) (k : Z) (i : Z)
  : list Peer * trace by wf (Z.to_nat (30 - i)) lt :=
  poll later key k i
    with inspect (poll_break (peersManager_GetPeers (later (i + 1)) key k) (i + 1)) := {
    | exist _ true _ =>
        (peersManager_GetPeers (later (i + 1)) key k,
         [ev_tick (time.Second * 1); ev_GetPeers key k]);
    | exist _ false Hc =>
        let '(peers, t) := poll later key k (i + 1) in
        (peers, ev_tick (time.Second * 1) :: ev_GetPeers key k :: t) }.
Next Obligation.
  unfold poll_break in Hc. apply orb_false_iff in Hc as [_ Hc]. lia.
Qed.

(** The key [FindNode] looks up: a key of twice the identifier length is
    taken for hex and decoded, any other key is taken as it is. *)
Definition FindNode_key (key : string) : string * option error :=
  if len key =? nodeIDLength * 2 then hex.DecodeString key else (key, None).

Definition FindNode (dht : DHT) (later : Z → option peersManager) (key : string)
  : list Peer * option error * trace :=
  if negb (Ready dht) then ([], Some (errors_New "dht not ready"), [])
  else
    let '(key, err) := FindNode_key key in
    match err with
    | Some e => ([], Some e, [])
    | None =>
        let k := K (config dht) in
        let peers := peersManager_GetPeers (dht_peersManager dht) key k in
        if negb (Z.of_nat (length peers) =? 0) then (peers, None, [ev_GetPeers key k])
        else
          let target := newBitmapFromString key in
          let neighbors := routingTable_GetNeighbors (dht_routingTable dht) target k in
          let '(peers, polled) := poll later key k 0 in
          (peers, None,
           ev_GetPeers key k :: ev_GetNeighbors target k
           :: map (λ no, ev_findNode no key) neighbors ++ polled)
    end.

(** *** Run *)

(** [dht.Ready = true; log.Info("DHT ready")] *)
Definition Run_ready (dht : DHT) : DHT * trace :=
  ({| config := config dht;
      dht_node := dht_node dht;
      conn := conn dht;
      dht_routingTable := dht_routingTable dht;
      dht_transactionManager := dht_transactionManager dht;
      dht_peersManager := dht_peersManager dht;
      dht_tokenManager := dht_tokenManager dht;
      Ready := true;
      packets := packets dht;
      workerTokens := workerTokens dht |},
   [ev_log "DHT ready"]).

(** What wakes the [select] of the main loop. *)
Inductive wakeup :=
| on_packet (pkt : packet)
| on_tick.

(** One turn of the main loop. *)
Definition Run_select (dht : DHT) (w : wakeup) : trace :=
  match w with
  | on_packet pkt => [ev_handle pkt]
  | on_tick =>
      if routingTable_Len (dht_routingTable dht) =? 0 then join dht
      else if transactionManager_len (dht_transactionManager dht) =? 0 then [ev_go_Fresh]
      else []
  end.

(** *** What the theorems say about traces *)

(** What the polling loop leaves in the trace after [p] turns. *)
Definition ticks (key : string) (k : Z) (p : nat) : trace :=
  concat (replicate p [ev_tick (time.Second * 1); ev_GetPeers key k]).

Definition is_ResolveUDPAddr (e : event) : bool :=
  match e with ev_ResolveUDPAddr _ _ => true | _ => false end.

Definition is_findNode (e : event) : bool :=
  match e with ev_findNode _ _ => true | _ => false end.

(** What the prime nodes resolve to, the unresolvable ones left out. *)
Definition resolved (dht : DHT) : list (option net.UDPAddr) :=
  omap (λ a, match ResolveUDPAddr (Network (config dht)) a with
             | (raddr, None) => Some raddr
             | (_, Some _) => None
             end)
       (PrimeNodes (config dht)).

(** The query [join] sends through a placeholder node for [raddr]. *)
Definition bootstrap_query (dht : DHT) (raddr : option net.UDPAddr) : event :=
  ev_findNode {| id := None; addr := raddr |} (bitmap_RawString (id (dht_node dht))).

Definition is_ReadFromUDP (e : event) : bool :=
  match e with ev_ReadFromUDP => true | _ => false end.

End dht.
End dht.

(** ** Package dht on something to run *)
Module dht_example.
Import dht.

(** A small package to run the facade on.

    Identifiers are 20 bytes.  The peers manager is a map from keys to the
    peers announced for them and gives the first [size] of them; the routing
    table is a list of known nodes and gives the first [size] of them; only
    the loopback address resolves. *)
#[export] Instance types_example : Types := {|
  bitmap := string;
  Peer := string;
  peersManager := gmap string (list string);
  routingTable := list (string * net.UDPAddr);
  transactionManager := list Z;
  tokenManager := unit;
  UDPConn := unit;
|}.

Definition loopback : net.UDPAddr :=
  {| net.IP := "127.0.0.1"; net.Port := 4444; net.Zone := "" |}.

#[export] Instance package_example : Package := {|
  nodeIDLength := 20;
  newNode rnd network address := ({| id := Some rnd; addr := None |}, None);
  bitmap_RawString b := default "" b;
  newBitmapFromString s := Some s;
  peersManager_GetPeers pm key size :=
    take (Z.to_nat size) (default [] (pm ≫= (.!! key)));
  routingTable_GetNeighbors rt target size :=
    take (Z.to_nat size)
      (map (λ e, {| id := Some (fst e); addr := Some (snd e) |}) (default [] rt));
  routingTable_Len rt := Z.of_nat (length (default [] rt));
  transactionManager_len tm := Z.of_nat (length (default [] tm));
  ResolveUDPAddr network address :=
    if String.eqb address "127.0.0.1:4444" then (Some loopback, None)
    else (None, Some (errors_New "no such host"));
|}.

(** A node that is initialized but not yet ready, and the same node once
    ready: it knows two nodes and holds one peer each for a 20-byte key and
    for a 40-byte key that is not hex. *)
Definition key20 : string := "abcdefghijklmnopqrst".
Definition key40 : string := "zzzzzzzzzzzzzzzzzzzzzzzzzzzzzzzzzzzzzzzz".

Definition starting : DHT := {|
  config := NewStandardConfig;
  dht_node := {| id := Some "01234567890123456789"; addr := None |};
  conn := Some ();
  dht_routingTable := Some [("98765432109876543210", loopback);
                            ("ABCDEFGHIJKLMNOPQRST", loopback)];
  dht_transactionManager := Some [7];
  dht_peersManager := Some {[ key20 := ["10.0.0.1:3333"]; key40 := ["10.0.0.2:3333"] ]};
  dht_tokenManager := Some ();
  Ready := false;
  packets := {| cap := 1024; queued := [] |};
  workerTokens := {| cap := 256; queued := [] |};
|}.

Definition running : DHT := fst (Run_ready starting).

(** Nobody announces anything while [FindNode] waits. *)
Definition quiet : Z → option (gmap string (list string)) :=
  λ _, dht_peersManager starting.

(** A key nobody announced. *)
Definition key_unknown : string := "no peers for this..".

(** A node whose routing table is still empty. *)
Definition alone : DHT := {|
  config := NewStandardConfig;
  dht_node := dht_node starting;
  conn := Some ();
  dht_routingTable := Some [];
  dht_transactionManager := Some [];
  dht_peersManager := Some ∅;
  dht_tokenManager := Some ();
  Ready := true;
  packets := {| cap := 1024; queued := [] |};
  workerTokens := {| cap := 256; queued := [] |};
|}.

(** A node that knows other nodes and waits for no reply. *)
Definition idle : DHT := {|
  config := NewStandardConfig;
  dht_node := dht_node starting;
  conn := Some ();
  dht_routingTable := dht_routingTable starting;
  dht_transactionManager := Some [];
  dht_peersManager := Some ∅;
  dht_tokenManager := Some ();
  Ready := true;
  packets := {| cap := 1024; queued := [] |};
  workerTokens := {| cap := 256; queued := [] |};
|}.

End dht_example.

(** ** package jsonrpc: the table of each enum destination *)
Module jsonrpc_tables.
Import jsonrpc.

(** The table the [case] of a destination type hands to [getEnumVal]; the
    destinations that are no enum have none. *)
Definition enum_table `{lbryschema} (t : rtype) : option (gmap string Z) :=
  match t with
  | t_Metadata_Version => Some Metadata_Version_value
  | t_Metadata_Language => Some Metadata_Language_value
  | t_Stream_Version => Some Stream_Version_value
  | t_Claim_Version => Some Claim_Version_value
  | t_Claim_ClaimType => Some Claim_ClaimType_value
  | t_Fee_Version => Some Fee_Version_value
  | t_Fee_Currency => Some Fee_Currency_value
  | t_Source_Version => Some Source_Version_value
  | t_Source_SourceTypes => Some Source_SourceTypes_value
  | t_KeyType => Some KeyType_value
  | t_Signature_Version => Some Signature_Version_value
  | t_Certificate_Version => Some Certificate_Version_value
  | t_uint64 | t_bytes | t_other _ => None
  end.

End jsonrpc_tables.

(** ** package dht: [init], the start of [Run] and its main loop *)
Module dht_run.
Import dht.

(** What [net.ListenPacket] hands back behind the interface
    [net.PacketConn]: a [*net.UDPConn], or a connection of another kind. *)
Inductive PacketConn `{Types} :=
| UDP_conn (c : UDPConn)
| other_conn (kind : string).

(** What [init] takes from the rest of the package and from package net.
    The constructors get the node as it is when they are called. *)
Class Startup `{Package} := {
  node_HexID : node → string;
  ListenPacket : string → string → option PacketConn * option error;
  newRoutingTable : Z → DHT → option routingTable;
  newPeersManager : DHT → option peersManager;
  newTokenManager : Z → DHT → option tokenManager;
  newTransactionManager : Z → DHT → option transactionManager;
}.

Section run.
Context `{Startup}.

(** The events of [Run] before its loop: those of the facade, and the
    socket and the goroutines [init] and [listen] start. *)
Inductive startup_event :=
| su_do (e : event)
| su_ListenPacket (network address : string)
| su_go_transactionManager_run           (* go dht.transactionManager.run() *)
| su_go_tokenManager_clear               (* go dht.tokenManager.clear() *)
| su_go_listen.                          (* the goroutine of listen() *)

(** The assignments of [init], one field at a time. *)
Definition set_conn (dht : DHT) (c : option UDPConn) : DHT :=
  {| config := config dht; dht_node := dht_node dht; conn := c;
     dht_routingTable := dht_routingTable dht;
     dht_transactionManager := dht_transactionManager dht;
     dht_peersManager := dht_peersManager dht;
     dht_tokenManager := dht_tokenManager dht;
     Ready := Ready dht; packets := packets dht; workerTokens := workerTokens dht |}.

Definition set_routingTable (dht : DHT) (rt : option routingTable) : DHT :=
  {| config := config dht; dht_node := dht_node dht; conn := conn dht;
     dht_routingTable := rt;
     dht_transactionManager := dht_transactionManager dht;
     dht_peersManager := dht_peersManager dht;
     dht_tokenManager := dht_tokenManager dht;
     Ready := Ready dht; packets := packets dht; workerTokens := workerTokens dht |}.

Definition set_peersManager (dht : DHT) (pm : option peersManager) : DHT :=
  {| config := config dht; dht_node := dht_node dht; conn := conn dht;
     dht_routingTable := dht_routingTable dht;
     dht_transactionManager := dht_transactionManager dht;
     dht_peersManager := pm;
     dht_tokenManager := dht_tokenManager dht;
     Ready := Ready dht; packets := packets dht; workerTokens := workerTokens dht |}.

Definition set_tokenManager (dht : DHT) (tk : option tokenManager) : DHT :=
  {| config := config dht; dht_node := dht_node dht; conn := conn dht;
     dht_routingTable := dht_routingTable dht;
     dht_transactionManager := dht_transactionManager dht;
     dht_peersManager := dht_peersManager dht;
     dht_tokenManager := tk;
     Ready := Ready dht; packets := packets dht; workerTokens := workerTokens dht |}.

Definition set_transactionManager (dht : DHT) (tm : option transactionManager) : DHT :=
  {| config := config dht; dht_node := dht_node dht; conn := conn dht;
     dht_routingTable := dht_routingTable dht;
     dht_transactionManager := tm;
     dht_peersManager := dht_peersManager dht;
     dht_tokenManager := dht_tokenManager dht;
     Ready := Ready dht; packets := packets dht; workerTokens := workerTokens dht |}.

(** [init]: the trace up to the return or the panic, and which of the two
    it was.  The type assertion of the listener to a UDP connection panics
    on a connection of another kind and on a nil interface. *)
Definition init (dht : DHT) : list startup_event * outcome DHT :=
  let begun :=
    [ su_do (ev_log (String.append "Initializing DHT on " (Address (config dht))));
      su_do (ev_log (String.append "Node ID is " (node_HexID (dht_node dht))));
      su_ListenPacket (Network (config dht)) (Address (config dht)) ] in
  let (listener, err) := ListenPacket (Network (config dht)) (Address (config dht)) in
  match err with
  | Some _ => (begun, Panics "ListenPacket")
  | None =>
      match listener with
      | Some (UDP_conn c) =>
          let dht := set_conn dht (Some c) in
          let dht := set_routingTable dht (newRoutingTable (K (config dht)) dht) in
          let dht := set_peersManager dht (newPeersManager dht) in
          let dht := set_tokenManager dht
                       (newTokenManager (TokenExpiredAfter (config dht)) dht) in
          let dht := set_transactionManager dht
                       (newTransactionManager (MaxTransactionCursor (config dht)) dht) in
          (begun ++ [su_go_transactionManager_run; su_go_tokenManager_clear],
           Returns dht)
      | Some (other_conn _) | None => (begun, Panics "interface conversion")
      end
  end.

(** [Run] up to its loop: [init], [listen], [join], then the flag and the
    log line. *)
Definition Run_start (dht : DHT) : list startup_event * outcome DHT :=
  let (begun, r) := init dht in
  match r with
  | Panics why => (begun, Panics why)
  | Returns dht =>
      let joined := join dht in
      let (dht, said) := Run_ready dht in
      (begun ++ su_go_listen :: map su_do joined ++ map su_do said, Returns dht)
  end.

(** The loop of [Run] over what wakes it up; each turn finds the node as
    the handlers and the other goroutines left it. *)
Fixpoint Run_loop (turns : list (DHT * wakeup)) : trace :=
  match turns with
  | [] => []
  | (dht, w) :: rest => Run_select dht w ++ Run_loop rest
  end.

(** *** What the theorems say about these traces *)

Definition is_tick (e : event) : bool :=
  match e with ev_tick _ => true | _ => false end.

Definition is_GetPeers (e : event) : bool :=
  match e with ev_GetPeers _ _ => true | _ => false end.

Definition is_handle (e : event) : bool :=
  match e with ev_handle _ => true | _ => false end.

Definition is_go_Fresh (e : event) : bool :=
  match e with ev_go_Fresh => true | _ => false end.

(** The packets among the wake-ups, and the number of ticks. *)
Definition received (turns : list (DHT * wakeup)) : list packet :=
  omap (λ turn, match snd turn with on_packet pkt => Some pkt | on_tick => None end) turns.

Definition ticked (turns : list (DHT * wakeup)) : nat :=
  length (List.filter (λ turn, match snd turn with on_tick => true | _ => false end) turns).

(** The packets a trace of the listening loop sent to the queue, and the
    datagrams among the reads. *)
Definition enqueued (t : trace) : list packet :=
  omap (λ e, match e with ev_enqueue p => Some p | _ => None end) t.

Definition datagrams (reads : list udp_read) : list (string * option net.UDPAddr) :=
  omap (λ r, match r with datagram payload from => Some (payload, from)
                        | read_error _ => None end) reads.

(** The packet the loop makes of a datagram. *)
Definition packet_of (d : string * option net.UDPAddr) : packet :=
  {| data := {| s_off := 0; s_len := Z.min (len (fst d)) 8192 |}; raddr := snd d |}.

End run.

(** A key in upper case: the letters a to f of a hex string made A to F,
    32 below them in the table of characters. *)
Definition upper_hex_digit (c : ascii) : ascii :=
  if (byte_val "a" <=? byte_val c) && (byte_val c <=? byte_val "f")
  then byte_of (byte_val c - 32)
  else c.

Fixpoint upper_hex (s : string) : string :=
  match s with
  | EmptyString => EmptyString
  | String c rest => String (upper_hex_digit c) (upper_hex rest)
  end.

End dht_run.

(** ** [Run] on something to run *)
Module dht_run_example.
Import dht dht_example dht_run.

(** Only udp4 can be listened on; the tables start empty. *)
#[export] Instance startup_example : Startup := {|
  node_HexID nd := hex.EncodeToString (default "" (id nd));
  ListenPacket network address :=
    if String.eqb network "udp4" then (Some (UDP_conn ()), None)
    else (None, Some (errors_New "unknown network"));
  newRoutingTable k d := Some [];
  newPeersManager d := Some ∅;
  newTokenManager expiry d := Some ();
  newTransactionManager cursor d := Some [];
|}.

(** What [New] returns on a nil configuration. *)
Definition fresh : DHT := {|
  config := NewStandardConfig;
  dht_node := dht_node starting;
  conn := None;
  dht_routingTable := None;
  dht_transactionManager := None;
  dht_peersManager := None;
  dht_tokenManager := None;
  Ready := false;
  packets := {| cap := 1024; queued := [] |};
  workerTokens := {| cap := 256; queued := [] |};
|}.

(** The same node told to listen on a Unix socket. *)
Definition misconfigured : DHT := {|
  config := {| K := 8; Network := "unixgram"; Address := "/tmp/dht.sock";
               PrimeNodes := []; KBucketExpiredAfter := 0; NodeExpriedAfter := 0;
               CheckKBucketPeriod := 0; TokenExpiredAfter := 0;
               MaxTransactionCursor := 0; MaxNodes := 0;
               OnGetPeers := None; OnAnnouncePeer := None; Try := 0;
               PacketJobLimit := 1; PacketWorkerLimit := 1; RefreshNodeNum := 0 |};
  dht_node := dht_node starting;
  conn := None;
  dht_routingTable := None;
  dht_transactionManager := None;
  dht_peersManager := None;
  dht_tokenManager := None;
  Ready := false;
  packets := {| cap := 1; queued := [] |};
  workerTokens := {| cap := 1; queued := [] |};
|}.


End dht_run_example.

(** * Properties *)

(** ** encoding/hex: decoding undoes encoding, and fails on what is not hex *)
Module hex_facts.
Import hex.

Lemma fromHexChar_digit (c : ascii) : snd (fromHexChar c) = is_hex_digit c.
Proof. destruct c as [[] [] [] [] [] [] [] []]; reflexivity. Qed.

(** The two characters [Encode] writes for a byte decode to that byte. *)
Lemma byte_roundtrip (c : ascii) :
  ∃ a b,
    fromHexChar (index hextable (Z.shiftr (byte_val c) 4)) = (a, true) ∧
    fromHexChar (index hextable (Z.land (byte_val c) 15)) = (b, true) ∧
    byte_of (Z.lor (Z.shiftl a 4) b) = c.
Proof.
  destruct c as [[] [] [] [] [] [] [] []];
    vm_compute; eexists _, _; repeat split; reflexivity.
Qed.

Lemma Decode_Encode (s : string) : Decode (Encode s) = (s, None).
Proof.
  induction s as [|c s IH]; [reflexivity|].
  destruct (byte_roundtrip c) as (a & b & Ha & Hb & Hc).
  cbn [Encode Decode]. rewrite Ha, Hb. cbn [negb]. rewrite IH, Hc. reflexivity.
Qed.

Lemma DecodeString_EncodeToString (s : string) :
  DecodeString (EncodeToString s) = (s, None).
Proof. apply Decode_Encode. Qed.

Lemma len_EncodeToString (s : string) : len (EncodeToString s) = len s * 2.
Proof.
  unfold len, EncodeToString.
  induction s as [|c s IH]; [reflexivity|].
  cbn [Encode String.length]. lia.
Qed.

(** Strings two characters at a time. *)
Lemma string_pairs_ind (P : string → Prop) :
  P EmptyString →
  (∀ p, P (String p EmptyString)) →
  (∀ p q rest, P rest → P (String p (String q rest))) →
  ∀ s, P s.
Proof.
  intros H0 H1 H2.
  assert (∀ s, P s ∧ ∀ c, P (String c s)) as Hboth.
  { induction s as [|c s [IHa IHb]]; split; auto. }
  intros s. apply Hboth.
Qed.

(** [DecodeString] fails exactly on the strings that are not valid hex. *)
Lemma DecodeString_error_iff (s : string) :
  snd (DecodeString s) = None ↔ valid_hex s = true.
Proof.
  unfold DecodeString, valid_hex.
  induction s as [|p|p q rest IH] using string_pairs_ind.
  - cbn. tauto.
  - cbn [Decode all_hex_digits String.length Nat.even].
    rewrite andb_false_r. destruct (snd (fromHexChar p)); cbn; split; discriminate.
  - cbn [Decode all_hex_digits String.length Nat.even].
    pose proof (fromHexChar_digit p) as Hp. pose proof (fromHexChar_digit q) as Hq.
    destruct (fromHexChar p) as [a okp], (fromHexChar q) as [b okq].
    cbn [snd] in Hp, Hq. rewrite <- Hp, <- Hq.
    destruct okp; cbn [negb andb]; [|cbn; split; discriminate].
    destruct okq; cbn [negb andb]; [|cbn; split; discriminate].
    destruct (Decode rest) as [dst err]. exact IH.
Qed.

End hex_facts.

(** ** strconv: [ParseInt] reads exactly the literals that fit an int64 *)
Module strconv_facts.
Import strconv.

Lemma digit_of_digit (c : ascii) :
  is_digit c = true → ∃ d, digit_of c = Some d ∧ d = byte_val c - 48 ∧ 0 <= d <= 9.
Proof.
  destruct c as [[] [] [] [] [] [] [] []]; cbn; try discriminate;
    intros _; eexists; (split; [reflexivity|]); vm_compute; intuition discriminate.
Qed.

Lemma digit_of_other (c : ascii) :
  is_digit c = false → digit_of c = None ∨ ∃ d, digit_of c = Some d ∧ 10 <= d.
Proof.
  destruct c as [[] [] [] [] [] [] [] []]; cbn; try discriminate; intros _;
    first [ left; reflexivity
          | right; eexists; split; [reflexivity|]; vm_compute; discriminate ].
Qed.

Lemma digits_value_mono (s : string) :
  ∀ n v, 0 <= n → digits_value n s = Some v → n <= v.
Proof.
  induction s as [|c s IH]; intros n v Hn; cbn [digits_value].
  - intros [= <-]. lia.
  - destruct (is_digit c) eqn:Hc; [|discriminate].
    destruct (digit_of_digit c Hc) as (d & _ & Hd & Hr).
    intros Hv. apply IH in Hv; lia.
Qed.

Ltac known_constants :=
  change maxUint64 with 18446744073709551615 in *;
  change base with 10 in *;
  change bitSize with 64 in *;
  change (2 ^ 64) with 18446744073709551616 in *;
  change (2 ^ 63) with 9223372036854775808 in *;
  change (2 ^ (64 - 1)) with 9223372036854775808 in *;
  change (18446744073709551615 / 10 + 1) with 1844674407370955162 in *.

(** The loop returns the value of the digits when their value fits a
    uint64. *)
Lemma ParseUint_loop_value (s0 s : string) :
  ∀ n v, 0 <= n < 2 ^ 64 → digits_value n s = Some v → v < 2 ^ 64 →
         ParseUint_loop s0 n s = (v, None).
Proof.
  induction s as [|c s IH]; intros n v Hn; cbn [digits_value ParseUint_loop].
  - intros [= <-] _. reflexivity.
  - destruct (is_digit c) eqn:Hc; [|discriminate].
    destruct (digit_of_digit c Hc) as (d & -> & Hd & Hr).
    rewrite <- Hd. intros Hv Hlt. known_constants.
    assert (10 * n + d <= v) as Hmono by (apply (digits_value_mono s); [lia|exact Hv]).
    destruct (Z.geb_spec d 10); [lia|].
    destruct (Z.geb_spec n 1844674407370955162); [lia|].
    rewrite (Z.mod_small (n * 10)) by lia.
    rewrite (Z.mod_small (n * 10 + d)) by lia.
    destruct (Z.ltb_spec (n * 10 + d) (n * 10)); [lia|].
    destruct (Z.gtb_spec (n * 10 + d) (18446744073709551616 - 1)); [lia|].
    cbn [orb]. apply IH; [lia| |lia].
    rewrite <- Hv. f_equal. lia.
Qed.

(** It fails, with one of its two errors, when a byte is no digit or the
    value does not fit. *)
Lemma ParseUint_loop_error (s0 s : string) :
  ∀ n, 0 <= n < 2 ^ 64 →
       (digits_value n s = None ∨ ∃ v, digits_value n s = Some v ∧ 2 ^ 64 <= v) →
       ParseUint_loop s0 n s = (0, Some (syntaxError "ParseUint" s0)) ∨
       ParseUint_loop s0 n s = (2 ^ 64 - 1, Some (rangeError "ParseUint" s0)).
Proof.
  induction s as [|c s IH]; intros n Hn; cbn [digits_value ParseUint_loop].
  - intros [[=]|(v & [= <-] & Hv)]. lia.
  - destruct (is_digit c) eqn:Hc.
    + destruct (digit_of_digit c Hc) as (d & -> & Hd & Hr).
      rewrite <- Hd. intros Hbad. known_constants.
      destruct (Z.geb_spec d 10); [lia|].
      destruct (Z.geb_spec n 1844674407370955162); [right; reflexivity|].
      rewrite (Z.mod_small (n * 10)) by lia.
      destruct (Z_lt_le_dec (n * 10 + d) 18446744073709551616) as [Hfit|Hwrap].
      * rewrite (Z.mod_small (n * 10 + d)) by lia.
        destruct (Z.ltb_spec (n * 10 + d) (n * 10)); [lia|].
        destruct (Z.gtb_spec (n * 10 + d) (18446744073709551616 - 1)); [lia|].
        cbn [orb]. apply IH; [lia|].
        replace (n * 10 + d) with (10 * n + d) by lia. exact Hbad.
      * assert ((n * 10 + d) mod 18446744073709551616
                = n * 10 + d - 18446744073709551616) as ->.
        { symmetry. apply (Z.mod_unique _ _ 1); lia. }
        destruct (Z.ltb_spec (n * 10 + d - 18446744073709551616) (n * 10)); [|lia].
        right; reflexivity.
    + intros _. destruct (digit_of_other c Hc) as [->|(d & -> & Hd)].
      * left; reflexivity.
      * known_constants. destruct (Z.geb_spec d 10); [|lia]. left; reflexivity.
Qed.

Lemma ParseUint_value (s : string) (v : Z) :
  unsigned_literal s = Some v → v < 2 ^ 64 → ParseUint s = (v, None).
Proof.
  destruct s as [|c s]; [discriminate|].
  unfold unsigned_literal, ParseUint. intros Hv Hlt.
  apply ParseUint_loop_value; [known_constants; lia|exact Hv|exact Hlt].
Qed.

Lemma ParseUint_error (s : string) :
  (unsigned_literal s = None ∨ ∃ v, unsigned_literal s = Some v ∧ 2 ^ 64 <= v) →
  ParseUint s = (0, Some (syntaxError "ParseUint" s)) ∨
  ParseUint s = (2 ^ 64 - 1, Some (rangeError "ParseUint" s)).
Proof.
  destruct s as [|c s]; [left; reflexivity|].
  unfold unsigned_literal, ParseUint. intros Hbad.
  apply ParseUint_loop_error; [known_constants; lia|exact Hbad].
Qed.

Lemma unsigned_literal_nonneg (s : string) (v : Z) :
  unsigned_literal s = Some v → 0 <= v.
Proof.
  destruct s as [|c s]; [discriminate|].
  unfold unsigned_literal. apply digits_value_mono. lia.
Qed.

Lemma ParseInt_unsigned_value (s0 s : string) (neg : bool) (u : Z) :
  unsigned_literal s = Some u →
  - 2 ^ 63 <= (if neg then - u else u) < 2 ^ 63 →
  ParseInt_unsigned s0 neg s = ((if neg then - u else u), None).
Proof.
  intros Hu Hr. pose proof (unsigned_literal_nonneg _ _ Hu) as H0.
  unfold ParseInt_unsigned.
  rewrite (ParseUint_value s u Hu) by (known_constants; destruct neg; lia).
  unfold int64. known_constants.
  destruct neg; cbn [negb andb].
  - destruct (Z.gtb_spec u 9223372036854775808); [lia|].
    f_equal. destruct (Z.eq_dec u 9223372036854775808) as [->|Hne]; [reflexivity|].
    rewrite (Z.mod_small (u + _)) by lia.
    replace (u + 9223372036854775808 - 9223372036854775808) with u by lia.
    rewrite (Z.mod_small (- u + _)) by lia. lia.
  - destruct (Z.geb_spec u 9223372036854775808); [lia|].
    f_equal. rewrite Z.mod_small by lia. lia.
Qed.

Lemma ParseInt_unsigned_error (s0 s : string) (neg : bool) :
  (unsigned_literal s = None ∨
   ∃ u, unsigned_literal s = Some u ∧ ¬ - 2 ^ 63 <= (if neg then - u else u) < 2 ^ 63) →
  ∃ r e, ParseInt_unsigned s0 neg s = (r, Some e).
Proof.
  intros Hbad. unfold ParseInt_unsigned.
  assert (∀ u, ParseUint s = (u, None) → ¬ - 2 ^ 63 <= (if neg then - u else u) < 2 ^ 63
               → ∃ r e, ParseInt_unsigned s0 neg s = (r, Some e)) as Hrange.
  { intros u Hu Hr. unfold ParseInt_unsigned. rewrite Hu. known_constants.
    destruct neg; cbn [negb andb].
    - destruct (Z.gtb_spec u 9223372036854775808); [eauto|].
      destruct (ParseUint_error s) as [He|He]. 2,3: congruence.
      destruct (unsigned_literal s) as [w|] eqn:Hw; [|auto].
      destruct (Z_lt_le_dec w 18446744073709551616) as [Hlt|Hge]; [|eauto].
      pose proof (unsigned_literal_nonneg _ _ Hw).
      rewrite (ParseUint_value s w Hw Hlt) in Hu. injection Hu as ->. lia.
    - destruct (Z.geb_spec u 9223372036854775808); [eauto|].
      destruct (ParseUint_error s) as [He|He]. 2,3: congruence.
      destruct (unsigned_literal s) as [w|] eqn:Hw; [|auto].
      destruct (Z_lt_le_dec w 18446744073709551616) as [Hlt|Hge]; [|eauto].
      pose proof (unsigned_literal_nonneg _ _ Hw).
      rewrite (ParseUint_value s w Hw Hlt) in Hu. injection Hu as ->. lia. }
  assert (unsigned_literal s = None ∨ (∃ v, unsigned_literal s = Some v ∧ 2 ^ 64 <= v)
          ∨ ∃ u, unsigned_literal s = Some u ∧ u < 2 ^ 64 ∧
                 ¬ - 2 ^ 63 <= (if neg then - u else u) < 2 ^ 63) as [Hn|[Hbig|Hfit]].
  { destruct Hbad as [Hn|(u & Hu & Hr)]; [auto|]. right.
    destruct (Z_lt_le_dec u (2 ^ 64)); eauto. }
  - destruct (ParseUint_error s (or_introl Hn)) as [->| ->]; [eauto|].
    known_constants. destruct neg; cbn; eauto.
  - destruct (ParseUint_error s (or_intror Hbig)) as [->| ->]; [eauto|].
    known_constants. destruct neg; cbn; eauto.
  - destruct Hfit as (u & Hu & Hlt & Hr).
    apply (Hrange u); [apply ParseUint_value; assumption|exact Hr].
Qed.

(** [ParseInt] returns the value of a literal that fits an int64 ... *)
Lemma ParseInt_value (s : string) (v : Z) :
  integer_literal s = Some v → - 2 ^ 63 <= v < 2 ^ 63 → ParseInt s = (v, None).
Proof.
  destruct s as [|c rest]; [discriminate|].
  unfold integer_literal, ParseInt.
  destruct (Ascii.eqb c "+"); [|destruct (Ascii.eqb c "-")].
  - intros Hu Hr. apply (ParseInt_unsigned_value _ _ false); assumption.
  - destruct (unsigned_literal rest) as [u|] eqn:Hu; [|discriminate].
    intros [= <-] Hr. apply (ParseInt_unsigned_value _ _ true); assumption.
  - intros Hu Hr. apply (ParseInt_unsigned_value _ _ false); assumption.
Qed.

(** ... and an error on anything else. *)
Lemma ParseInt_error (s : string) :
  ¬ representable_int64 s → ∃ r e, ParseInt s = (r, Some e).
Proof.
  unfold representable_int64.
  destruct s as [|c rest]; [cbn; eauto|].
  unfold integer_literal, ParseInt.
  destruct (Ascii.eqb c "+"); [|destruct (Ascii.eqb c "-")]; intros Hno.
  - apply (ParseInt_unsigned_error _ _ false).
    destruct (unsigned_literal rest) as [u|]; [right|auto].
    exists u. split; [reflexivity|]. intros Hr. apply Hno. eauto.
  - apply (ParseInt_unsigned_error _ _ true).
    destruct (unsigned_literal rest) as [u|]; [right|auto].
    exists u. split; [reflexivity|]. intros Hr. apply Hno. exists (- u). eauto.
  - apply (ParseInt_unsigned_error _ _ false).
    destruct (unsigned_literal (String c rest)) as [u|]; [right|auto].
    exists u. split; [reflexivity|]. intros Hr. apply Hno. eauto.
Qed.

End strconv_facts.

(** ** package jsonrpc *)
Module jsonrpc_facts.
Import strconv jsonrpc jsonrpc_example.

(** C9. [getEnumVal] returns an error exactly when the datum is not a string
    or the string is not a key of the map; on a string that is a key it
    returns the map's value for it and a nil error. *)
Theorem getEnumVal_spec (enum : gmap string Z) (data : value) :
  (snd (getEnumVal enum data) ≠ None ↔
     (∀ s, data ≠ v_string s) ∨ (∃ s, data = v_string s ∧ enum !! s = None))
  ∧ (∀ s val, data = v_string s → enum !! s = Some val →
              getEnumVal enum data = (val, None)).
Proof.
  split.
  - destruct data as [| | |s| | | | | |]; cbn;
      try (split; [intros _; left; intros s'; discriminate | intros _; discriminate]).
    destruct (enum !! s) as [val|] eqn:Hs; cbn; split.
    + intros Hne. congruence.
    + intros [Hno|(s' & [= <-] & Hnone)]; [exfalso; apply (Hno s); reflexivity|congruence].
    + intros _. right. eauto.
    + intros _. discriminate.
  - intros s val -> Hs. cbn. rewrite Hs. reflexivity.
Qed.

Lemma getEnumVal_spec_witness :
  Metadata_Version_example !! "_0_0_3" = Some 3 ∧
  getEnumVal Metadata_Version_example (v_string "_0_0_3") = (3, None).
Proof.
  split; [reflexivity|].
  apply (proj2 (getEnumVal_spec Metadata_Version_example (v_string "_0_0_3")) "_0_0_3" 3);
    reflexivity.
Defined.

(** C10. With destination type uint64, [fixDecodeProto] turns a json.Number
    into the uint64 it denotes when the literal is a non-negative integer
    that fits an int64, into an error when the literal is negative or does
    not denote an int64; any other input comes back unchanged with a nil
    error. *)
Theorem fixDecodeProto_uint64 `{lbryschema} (src : rtype) (data : value) :
  (∀ n, data = v_Number n →
     (∀ v, integer_literal n = Some v → 0 <= v < 2 ^ 63 →
           fixDecodeProto src t_uint64 data = (v_uint64 v, None))
     ∧ ((¬ representable_int64 n ∨ ∃ v, integer_literal n = Some v ∧ v < 0) →
        ∃ e, fixDecodeProto src t_uint64 data = (v_nil, Some e)))
  ∧ ((∀ n, data ≠ v_Number n) → fixDecodeProto src t_uint64 data = (data, None)).
Proof.
  split.
  - intros n ->. cbn [fixDecodeProto]. unfold Number_Int64. split.
    + intros v Hv Hr.
      rewrite (strconv_facts.ParseInt_value n v Hv) by lia.
      destruct (Z.ltb_spec v 0); [lia|].
      rewrite Z.mod_small; [reflexivity|].
      strconv_facts.known_constants. lia.
    + intros Hbad.
      destruct (integer_literal n) as [v|] eqn:Hv.
      * destruct (Z_lt_le_dec v (- 2 ^ 63)) as [Hsmall|Hge].
        { destruct (strconv_facts.ParseInt_error n) as (r & e & ->); [|eauto].
          intros (w & Hw & Hr). assert (w = v) by congruence. lia. }
        destruct (Z_lt_le_dec v 0) as [Hneg|Hpos].
        { rewrite (strconv_facts.ParseInt_value n v Hv)
            by (strconv_facts.known_constants; lia).
          destruct (Z.ltb_spec v 0); [eauto|lia]. }
        destruct (strconv_facts.ParseInt_error n) as (r & e & ->); [|eauto].
        destruct Hbad as [Hno|(w & Hw' & Hw)]; [exact Hno|].
        exfalso. assert (w = v) by congruence. lia.
      * destruct (strconv_facts.ParseInt_error n) as (r & e & ->); [|eauto].
        intros (w & Hw & _). congruence.
  - intros Hno. destruct data; try reflexivity. exfalso. eapply Hno. reflexivity.
Qed.

Lemma fixDecodeProto_uint64_witness :
  (integer_literal "18446744073" = Some 18446744073 ∧ 0 <= 18446744073 < 2 ^ 63 ∧
   fixDecodeProto (H := lbryschema_example) (t_other "interface {}") t_uint64
     (v_Number "18446744073") = (v_uint64 18446744073, None))
  ∧ (integer_literal "-7" = Some (-7) ∧ -7 < 0 ∧
     ∃ e, fixDecodeProto (H := lbryschema_example) (t_other "interface {}") t_uint64
            (v_Number "-7") = (v_nil, Some e))
  ∧ fixDecodeProto (H := lbryschema_example) (t_other "interface {}") t_uint64
      (v_string "7") = (v_string "7", None).
Proof.
  split; [|split].
  - split; [reflexivity|]. split; [vm_compute; intuition discriminate|].
    apply (proj1 (proj1 (fixDecodeProto_uint64 (H := lbryschema_example)
                           (t_other "interface {}") (v_Number "18446744073"))
                    "18446744073" eq_refl) 18446744073);
      [reflexivity | vm_compute; intuition discriminate].
  - split; [reflexivity|]. split; [reflexivity|].
    apply (proj2 (proj1 (fixDecodeProto_uint64 (H := lbryschema_example)
                           (t_other "interface {}") (v_Number "-7"))
                    "-7" eq_refl)).
    right. exists (-7). split; reflexivity.
  - apply (proj2 (fixDecodeProto_uint64 (H := lbryschema_example)
                    (t_other "interface {}") (v_string "7"))).
    intros n. discriminate.
Defined.

End jsonrpc_facts.

(** ** package dht *)
Module dht_facts.
Import dht.

Section facts.
Context `{Package}.

Lemma len_zero_nil {A : Type} (l : list A) :
  (Z.of_nat (length l) =? 0) = true ↔ l = [].
Proof.
  destruct l; cbn [length]; split; intros Hl; try reflexivity; discriminate.
Qed.

Lemma poll_unfold later key k i :
  poll later key k i =
  if poll_break (peersManager_GetPeers (later (i + 1)) key k) (i + 1)
  then (peersManager_GetPeers (later (i + 1)) key k,
        [ev_tick (time.Second * 1); ev_GetPeers key k])
  else let '(peers, t) := poll later key k (i + 1) in
       (peers, ev_tick (time.Second * 1) :: ev_GetPeers key k :: t).
Proof.
  rewrite poll_equation_1. unfold inspect.
  assert (∀ b (e : poll_break (peersManager_GetPeers (later (i + 1)) key k) (i + 1) = b),
            poll_unfold_clause_1 later key k i (b ↾ e) =
            if b
            then (peersManager_GetPeers (later (i + 1)) key k,
                  [ev_tick (time.Second * 1); ev_GetPeers key k])
            else let '(peers, t) := poll later key k (i + 1) in
                 (peers, ev_tick (time.Second * 1) :: ev_GetPeers key k :: t)) as Hcl.
  { intros [] e; reflexivity. }
  apply Hcl.
Qed.

(** The loop started after [i] ticks stops at some tick [p] no later than
    the 30th: the first one at which the peers manager has peers, or the
    30th. *)
Lemma poll_stops later key k :
  ∀ (n : nat) (i : Z), Z.to_nat (30 - i) = n → i < 30 →
    ∃ p, i < p <= 30
         ∧ (∀ j, i < j < p → peersManager_GetPeers (later j) key k = [])
         ∧ (p < 30 → peersManager_GetPeers (later p) key k ≠ [])
         ∧ poll later key k i
           = (peersManager_GetPeers (later p) key k, ticks key k (Z.to_nat (p - i))).
Proof.
  induction n as [|n IH]; intros i Hn Hi; [lia|].
  rewrite poll_unfold. unfold poll_break.
  destruct (Z.of_nat (length (peersManager_GetPeers (later (i + 1)) key k)) =? 0) eqn:Hlen;
    cbn [negb orb].
  - apply len_zero_nil in Hlen.
    destruct (Z.geb_spec (i + 1) 30) as [Hlast|Hmore].
    + exists (i + 1). repeat split; try lia.
      replace (i + 1 - i) with 1 by lia. reflexivity.
    + destruct (IH (i + 1)) as (p & Hp & Hempty & Hfound & ->); [lia|lia|].
      exists p. repeat split; try lia; [|exact Hfound|].
      * intros j Hj. destruct (Z.eq_dec j (i + 1)) as [->|Hne]; [exact Hlen|].
        apply Hempty. lia.
      * replace (Z.to_nat (p - i)) with (S (Z.to_nat (p - (i + 1)))) by lia.
        reflexivity.
  - exists (i + 1). repeat split; try lia.
    + intros _ Hnil. apply len_zero_nil in Hnil. congruence.
    + replace (i + 1 - i) with 1 by lia. reflexivity.
Qed.

Lemma FindNode_key_raw (k : string) :
  len k = nodeIDLength → FindNode_key k = (k, None).
Proof.
  intros Hk. unfold FindNode_key.
  destruct (Z.eqb_spec (len k) (nodeIDLength * 2)) as [Heq|]; [|reflexivity].
  assert (String.length k = 0%nat) as Hlen by (unfold len in *; lia).
  destruct k; [reflexivity|discriminate].
Qed.

Lemma FindNode_key_hex (k : string) :
  len k = nodeIDLength → FindNode_key (hex.EncodeToString k) = (k, None).
Proof.
  intros Hk. unfold FindNode_key.
  rewrite hex_facts.len_EncodeToString, Hk, Z.eqb_refl.
  apply hex_facts.DecodeString_EncodeToString.
Qed.

Lemma FindNode_key_other (key : string) :
  len key ≠ nodeIDLength * 2 → FindNode_key key = (key, None).
Proof.
  intros Hk. unfold FindNode_key.
  destruct (Z.eqb_spec (len key) (nodeIDLength * 2)); [contradiction|reflexivity].
Qed.

(** C1. While [Ready] is false, [FindNode] returns the "dht not ready" error
    whatever the key is, a key that is not hex included, and its trace is
    empty: no wait on a ticker or a channel, no query of the peers manager,
    the routing table or the transaction manager. *)
Theorem FindNode_not_ready (dht : DHT) (later : Z → option peersManager) (key : string) :
  Ready dht = false →
  FindNode dht later key = ([], Some (errors_New "dht not ready"), []).
Proof. intros Hr. unfold FindNode. rewrite Hr. reflexivity. Qed.

(** C2, amended. The hex encoding of a raw key of the identifier length has
    twice that length, and [FindNode] does on it what it does on the raw
    key.  On a string of twice the identifier length that is not valid hex,
    a ready node returns the error of [hex.DecodeString] and does nothing
    else. *)
Theorem FindNode_hex_key (dht : DHT) (later : Z → option peersManager) :
  (∀ k, len k = nodeIDLength →
        len (hex.EncodeToString k) = nodeIDLength * 2 ∧
        FindNode dht later (hex.EncodeToString k) = FindNode dht later k)
  ∧ (∀ s, Ready dht = true → len s = nodeIDLength * 2 → hex.valid_hex s = false →
          ∃ e, snd (hex.DecodeString s) = Some e ∧
               FindNode dht later s = ([], Some e, [])).
Proof.
  split.
  - intros k Hk. split; [rewrite hex_facts.len_EncodeToString; lia|].
    unfold FindNode.
    rewrite (FindNode_key_hex k Hk), (FindNode_key_raw k Hk). reflexivity.
  - intros s Hr Hs Hbad. unfold FindNode, FindNode_key.
    rewrite Hr, Hs, Z.eqb_refl. cbn [negb].
    destruct (hex.DecodeString s) as [data [e|]] eqn:Hd.
    + exists e. split; reflexivity.
    + exfalso. pose proof (proj1 (hex_facts.DecodeString_error_iff s)) as Hok.
      rewrite Hd in Hok. rewrite Hok in Hbad; [discriminate|reflexivity].
Qed.

(** C3, amended. When the peers manager has peers for the key [FindNode]
    looks up (the key itself, or what it decodes to when it has twice the
    identifier length), a ready node returns them with a nil error after
    that one query of the peers manager: nothing is asked of the routing
    table, no find_node is sent and no tick is waited for. *)
Theorem FindNode_stored_peers (dht : DHT) (later : Z → option peersManager)
    (key key' : string) :
  Ready dht = true →
  FindNode_key key = (key', None) →
  peersManager_GetPeers (dht_peersManager dht) key' (K (config dht)) ≠ [] →
  FindNode dht later key
  = (peersManager_GetPeers (dht_peersManager dht) key' (K (config dht)), None,
     [ev_GetPeers key' (K (config dht))]).
Proof.
  intros Hr Hk Hpeers. unfold FindNode. rewrite Hr, Hk. cbn [negb].
  destruct (Z.of_nat (length _) =? 0) eqn:Hlen; [|reflexivity].
  apply len_zero_nil in Hlen. contradiction.
Qed.

(** C4. When the peers manager has no peers for the key a ready node looks
    up, [FindNode] asks the routing table for the neighbours of the key,
    sends each a find_node, and then polls: each poll waits for one tick of
    a one-second ticker and asks the peers manager once.  It stops at the
    first poll [p] that finds peers, at the 30th at the latest, and returns
    what that poll found, empty or not, with a nil error. *)
Theorem FindNode_polls (dht : DHT) (later : Z → option peersManager)
    (key key' : string) :
  Ready dht = true →
  FindNode_key key = (key', None) →
  peersManager_GetPeers (dht_peersManager dht) key' (K (config dht)) = [] →
  ∃ p, 1 <= p <= 30
       ∧ (∀ j, 1 <= j < p → peersManager_GetPeers (later j) key' (K (config dht)) = [])
       ∧ (p < 30 → peersManager_GetPeers (later p) key' (K (config dht)) ≠ [])
       ∧ time.Second * 1 = 1000000000
       ∧ FindNode dht later key
         = (peersManager_GetPeers (later p) key' (K (config dht)), None,
            ev_GetPeers key' (K (config dht))
            :: ev_GetNeighbors (newBitmapFromString key') (K (config dht))
            :: map (λ no, ev_findNode no key')
                 (routingTable_GetNeighbors (dht_routingTable dht)
                    (newBitmapFromString key') (K (config dht)))
            ++ ticks key' (K (config dht)) (Z.to_nat p)).
Proof.
  intros Hr Hk Hnone.
  destruct (poll_stops later key' (K (config dht)) (Z.to_nat 30) 0)
    as (p & Hp & Hempty & Hfound & Hpoll); [reflexivity|lia|].
  exists p. split; [lia|]. split; [intros j Hj; apply Hempty; lia|].
  split; [exact Hfound|]. split; [reflexivity|].
  unfold FindNode. rewrite Hr, Hk, Hnone. cbn [negb length Z.of_nat Z.eqb].
  rewrite Hpoll. replace (p - 0) with p by lia. reflexivity.
Qed.

(** *** join *)

Lemma join_range_resolves (dht : DHT) (addrs : list string) :
  List.filter is_ResolveUDPAddr (join_range dht addrs)
  = map (ev_ResolveUDPAddr (Network (config dht))) addrs.
Proof.
  induction addrs as [|a addrs IH]; [reflexivity|].
  cbn [join_range map].
  destruct (ResolveUDPAddr _ a) as [raddr [e|]]; cbn; rewrite IH; reflexivity.
Qed.

Lemma join_range_queries (dht : DHT) (addrs : list string) :
  List.filter is_findNode (join_range dht addrs)
  = map (bootstrap_query dht)
      (omap (λ a, match ResolveUDPAddr (Network (config dht)) a with
                  | (raddr, None) => Some raddr
                  | (_, Some _) => None
                  end) addrs).
Proof.
  induction addrs as [|a addrs IH]; [reflexivity|].
  cbn. cbn in IH.
  destruct (ResolveUDPAddr _ a) as [raddr [e|]]; cbn; rewrite IH; reflexivity.
Qed.

Lemma join_range_events (dht : DHT) (addrs : list string) (e : event) :
  In e (join_range dht addrs) → is_ResolveUDPAddr e = true ∨ is_findNode e = true.
Proof.
  induction addrs as [|a addrs IH]; [intros []|].
  cbn [join_range].
  destruct (ResolveUDPAddr _ a) as [raddr [err|]]; cbn [In].
  - intros [<-|Hin]; [left; reflexivity|auto].
  - intros [<-|[<-|Hin]]; [left; reflexivity|right; reflexivity|auto].
Qed.

Lemma join_range_unresolvable (dht : DHT) (addrs : list string) :
  (∀ a, In a addrs → snd (ResolveUDPAddr (Network (config dht)) a) ≠ None) →
  join_range dht addrs = map (ev_ResolveUDPAddr (Network (config dht))) addrs.
Proof.
  induction addrs as [|a addrs IH]; [reflexivity|].
  intros Hbad. cbn [join_range map].
  pose proof (Hbad a (or_introl eq_refl)) as Ha.
  destruct (ResolveUDPAddr _ a) as [raddr [err|]]; [|contradiction].
  rewrite IH; [reflexivity|]. intros b Hb. apply Hbad. right. exact Hb.
Qed.

(** C5. [join] tries to resolve every prime node address, in order, and
    stops at none; for each address that resolves, and for no other, it
    sends one find_node for the local node's own ID through a node that has
    that address and no ID; it does nothing else.  When no address resolves
    it has tried them all and sent nothing. *)
Theorem join_bootstrap (dht : DHT) :
  List.filter is_ResolveUDPAddr (join dht)
  = map (ev_ResolveUDPAddr (Network (config dht))) (PrimeNodes (config dht))
  ∧ List.filter is_findNode (join dht) = map (bootstrap_query dht) (resolved dht)
  ∧ (∀ e, In e (join dht) → is_ResolveUDPAddr e = true ∨ is_findNode e = true)
  ∧ ((∀ a, In a (PrimeNodes (config dht)) →
           snd (ResolveUDPAddr (Network (config dht)) a) ≠ None) →
     join dht = map (ev_ResolveUDPAddr (Network (config dht))) (PrimeNodes (config dht))).
Proof.
  unfold join, resolved. repeat split.
  - apply join_range_resolves.
  - apply join_range_queries.
  - apply join_range_events.
  - apply join_range_unresolvable.
Qed.

(** *** Run *)

(** C6. On a tick of the maintenance timer: with an empty routing table the
    main loop runs [join], and starts no refresh; with a routing table that
    is not empty it starts [Fresh] in a goroutine of its own exactly when no
    transaction is outstanding, and does nothing when some are. *)
Theorem Run_tick (dht : DHT) :
  (routingTable_Len (dht_routingTable dht) = 0 →
     Run_select dht on_tick = join dht ∧ ¬ In ev_go_Fresh (Run_select dht on_tick))
  ∧ (routingTable_Len (dht_routingTable dht) ≠ 0 →
     (transactionManager_len (dht_transactionManager dht) = 0
      ↔ Run_select dht on_tick = [ev_go_Fresh]))
  ∧ (routingTable_Len (dht_routingTable dht) ≠ 0 →
     transactionManager_len (dht_transactionManager dht) ≠ 0 →
     Run_select dht on_tick = []).
Proof.
  unfold Run_select. split; [|split; [intros Hrt; split|]].
  - intros Hrt. rewrite Hrt. cbn [Z.eqb]. split; [reflexivity|].
    intros Hin. destruct (join_range_events _ _ _ Hin) as [He|He]; discriminate.
  - intros Hlen. destruct (Z.eqb_spec (routingTable_Len (dht_routingTable dht)) 0);
      [contradiction|]. rewrite Hlen. reflexivity.
  - destruct (Z.eqb_spec (routingTable_Len (dht_routingTable dht)) 0); [contradiction|].
    destruct (Z.eqb_spec (transactionManager_len (dht_transactionManager dht)) 0);
      [auto|discriminate].
  - intros Hrt Htm.
    destruct (Z.eqb_spec (routingTable_Len (dht_routingTable dht)) 0); [contradiction|].
    destruct (Z.eqb_spec (transactionManager_len (dht_transactionManager dht)) 0);
      [contradiction|reflexivity].
Qed.

(** *** New *)


(** *** listen *)

Lemma length_append (s1 s2 : string) :
  String.length (String.append s1 s2) = (String.length s1 + String.length s2)%nat.
Proof. induction s1 as [|c s1 IH]; simpl; [reflexivity|]. f_equal. exact IH. Qed.

Lemma length_substring (s : string) :
  ∀ n m, String.length (String.substring n m s) = Nat.min m (String.length s - n).
Proof.
  induction s as [|c s IH]; intros [|n] [|m]; simpl; try reflexivity.
  - f_equal. rewrite IH. rewrite Nat.sub_0_r. reflexivity.
  - apply IH.
  - apply IH.
Qed.

Lemma prefix_append (s1 s2 : string) :
  String.substring 0 (String.length s1) (String.append s1 s2) = s1.
Proof.
  induction s1 as [|c s1 IH]; simpl; [destruct s2; reflexivity|].
  f_equal. exact IH.
Qed.

Lemma prefix_min (s : string) :
  ∀ n, String.substring 0 (Nat.min n (String.length s)) s = String.substring 0 n s.
Proof.
  induction s as [|c s IH]; intros [|n]; simpl; try reflexivity.
  f_equal. apply IH.
Qed.

Lemma length_make_bytes (n : nat) : String.length (make_bytes n) = n.
Proof. induction n as [|n IH]; simpl; [reflexivity|]. f_equal. exact IH. Qed.

(** A read keeps the size of the buffer and leaves, in its first [n] bytes,
    the datagram cut to the size of the buffer. *)
Lemma ReadFromUDP_copy_spec (buff payload : string) :
  ∃ buff' n, ReadFromUDP_copy buff payload = (buff', n)
    ∧ String.length buff' = String.length buff
    ∧ slice_bytes buff' {| s_off := 0; s_len := n |}
      = String.substring 0 (String.length buff) payload.
Proof.
  unfold ReadFromUDP_copy, slice_bytes, len. cbn [s_off s_len].
  eexists _, _. split; [reflexivity|].
  replace (Z.to_nat (Z.min (Z.of_nat (String.length payload))
                       (Z.of_nat (String.length buff))))
    with (Nat.min (String.length buff) (String.length payload)) by lia.
  change (Z.to_nat 0) with 0%nat.
  set (n := Nat.min (String.length buff) (String.length payload)).
  assert (String.length (String.substring 0 n payload) = n) as Hpre.
  { rewrite length_substring. lia. }
  split.
  - rewrite length_append, Hpre, length_substring. lia.
  - rewrite <- Hpre at 1. rewrite prefix_append. apply prefix_min.
Qed.

(** The loop takes every read it is given, whatever the reads are, and logs
    nothing. *)
Lemma listen_loop_all (reads : list udp_read) :
  ∀ buff, ∃ buff' t,
    listen_loop buff reads = (buff', t, [])
    ∧ String.length buff' = String.length buff
    ∧ (∀ msg, ¬ In (ev_log msg) t)
    ∧ length (List.filter is_ReadFromUDP t) = length reads.
Proof.
  induction reads as [|r reads IH]; intros buff.
  - exists buff, []. repeat split. intros msg [].
  - cbn [listen_loop]. destruct r as [payload from|e]; cbn [listen_body].
    + destruct (ReadFromUDP_copy_spec buff payload) as (b1 & n & -> & Hlen & _).
      destruct (IH b1) as (b2 & t & -> & Hlen2 & Hlog & Hreads).
      eexists _, _. split; [reflexivity|]. split; [congruence|]. split.
      * intros msg [Hin|[Hin|Hin]]; try discriminate. exact (Hlog msg Hin).
      * cbn. rewrite Hreads. reflexivity.
    + destruct (IH buff) as (b2 & t & -> & Hlen2 & Hlog & Hreads).
      eexists _, _. split; [reflexivity|]. split; [congruence|]. split.
      * intros msg [Hin|Hin]; try discriminate. exact (Hlog msg Hin).
      * cbn. rewrite Hreads. reflexivity.
Qed.

Lemma listen_loop_app (pre post : list udp_read) :
  ∀ buff b1 t1 b2 t2,
    listen_loop buff pre = (b1, t1, []) →
    listen_loop b1 post = (b2, t2, []) →
    listen_loop buff (pre ++ post) = (b2, t1 ++ t2, []).
Proof.
  induction pre as [|r pre IH]; intros buff b1 t1 b2 t2.
  - cbn [listen_loop app]. intros Hpre Hpost.
    injection Hpre as <- <-. exact Hpost.
  - change ((r :: pre) ++ post) with (r :: (pre ++ post)). cbn [listen_loop].
    assert (∃ b t, listen_body buff r = (b, t, Continue)) as (b & t & ->).
    { destruct r as [payload from|e]; cbn [listen_body];
        [destruct (ReadFromUDP_copy buff payload)|]; eauto. }
    destruct (listen_loop b pre) as [[b' t'] u] eqn:Hpre.
    intros Hrun Hpost. injection Hrun as <- <- ->.
    rewrite (IH b b' t' b2 t2 Hpre Hpost), app_assoc. reflexivity.
Qed.

(** C8, amended. The listening loop takes every read the socket delivers: a
    read error is dropped without a word (nothing is logged) and the next
    read follows.  After each datagram read, the loop sends the packet queue
    a packet whose bytes, at that moment, are the datagram cut to the 8192
    bytes of the buffer, and whose address is the sender's. *)
Theorem listen_keeps_reading (reads : list udp_read) :
  ∃ buff t,
    listen reads = (buff, t, [])
    ∧ (∀ msg, ¬ In (ev_log msg) t)
    ∧ length (List.filter is_ReadFromUDP t) = length reads
    ∧ ∀ pre payload from post,
        reads = pre ++ datagram payload from :: post →
        ∃ buff1 t1 p rest,
          listen (pre ++ [datagram payload from])
          = (buff1, t1 ++ [ev_ReadFromUDP; ev_enqueue p], [])
          ∧ raddr p = from
          ∧ slice_bytes buff1 (data p) = String.substring 0 (Z.to_nat 8192) payload
          ∧ t = (t1 ++ [ev_ReadFromUDP; ev_enqueue p]) ++ rest.
Proof.
  unfold listen. set (buff0 := make_bytes (Z.to_nat 8192)).
  assert (String.length buff0 = Z.to_nat 8192) as Hlen0 by apply length_make_bytes.
  destruct (listen_loop_all reads buff0) as (buff & t & Hrun & _ & Hlog & Hreads).
  exists buff, t. split; [exact Hrun|]. split; [exact Hlog|]. split; [exact Hreads|].
  intros pre payload from post ->.
  destruct (listen_loop_all pre buff0) as (b1 & t1 & Hpre & Hlen1 & _ & _).
  destruct (ReadFromUDP_copy_spec b1 payload) as (b2 & n & Hcopy & Hlen2 & Hbytes).
  destruct (listen_loop_all post b2) as (b3 & t3 & Hpost & _ & _ & _).
  set (p := {| data := {| s_off := 0; s_len := n |}; raddr := from |}).
  assert (listen_loop b1 [datagram payload from]
          = (b2, [ev_ReadFromUDP; ev_enqueue p], [])) as Hone.
  { cbn [listen_loop listen_body]. rewrite Hcopy. reflexivity. }
  assert (listen_loop b1 (datagram payload from :: post)
          = (b3, [ev_ReadFromUDP; ev_enqueue p] ++ t3, [])) as Hboth.
  { apply (listen_loop_app [datagram payload from] post b1 b2 _ b3 t3 Hone Hpost). }
  exists b2, t1, p, t3. split; [|split; [|split]].
  - apply (listen_loop_app pre _ buff0 b1 t1 b2 _ Hpre Hone).
  - reflexivity.
  - subst p. cbn [data]. rewrite Hbytes, Hlen1, Hlen0. reflexivity.
  - rewrite (listen_loop_app pre _ buff0 b1 t1 b3 _ Hpre Hboth) in Hrun.
    injection Hrun as _ <-. rewrite <- app_assoc. reflexivity.
Qed.

End facts.

(** *** The theorems on the small package *)
Import dht_example.

Lemma FindNode_not_ready_witness :
  Ready starting = false ∧
  FindNode starting quiet key40 = ([], Some (errors_New "dht not ready"), []).
Proof.
  split; [reflexivity|].
  apply (FindNode_not_ready starting quiet key40). reflexivity.
Defined.

Lemma FindNode_hex_key_witness :
  (len key20 = nodeIDLength ∧
   FindNode running quiet (hex.EncodeToString key20) = FindNode running quiet key20)
  ∧ (Ready running = true ∧ len key40 = nodeIDLength * 2 ∧ hex.valid_hex key40 = false ∧
     ∃ e, snd (hex.DecodeString key40) = Some e ∧
          FindNode running quiet key40 = ([], Some e, [])).
Proof.
  split.
  - split; [reflexivity|].
    apply (proj1 (FindNode_hex_key running quiet) key20). reflexivity.
  - split; [reflexivity|]. split; [reflexivity|]. split; [reflexivity|].
    apply (proj2 (FindNode_hex_key running quiet) key40); reflexivity.
Defined.

(** C2 as it stands fails on a node that is not ready: a string of twice the
    identifier length that is not hex gets the "dht not ready" error, not
    the decoder's. *)
Lemma FindNode_hex_key_counterexample :
  Ready starting = false
  ∧ len key40 = nodeIDLength * 2
  ∧ hex.valid_hex key40 = false
  ∧ snd (hex.DecodeString key40) = Some (hex_InvalidByteError "z")
  ∧ FindNode starting quiet key40 = ([], Some (errors_New "dht not ready"), []).
Proof. repeat split. Qed.

(** C3 as it stands fails on a key of twice the identifier length: the peers
    manager holds a peer for [key40], the node is ready, and [FindNode]
    returns the error of the hex decoder instead of that peer. *)
Lemma FindNode_stored_peers_counterexample :
  Ready running = true
  ∧ peersManager_GetPeers (dht_peersManager running) key40 (K (config running))
    = ["10.0.0.2:3333"]
  ∧ FindNode running quiet key40 = ([], Some (hex_InvalidByteError "z"), []).
Proof. repeat split. Qed.

Lemma FindNode_stored_peers_witness :
  Ready running = true
  ∧ FindNode_key key20 = (key20, None)
  ∧ peersManager_GetPeers (dht_peersManager running) key20 (K (config running)) ≠ []
  ∧ FindNode running quiet key20 = (["10.0.0.1:3333"], None, [ev_GetPeers key20 8]).
Proof.
  split; [reflexivity|]. split; [reflexivity|]. split; [vm_compute; discriminate|].
  etransitivity;
    [ apply (FindNode_stored_peers running quiet key20 key20);
        [reflexivity | reflexivity | vm_compute; discriminate]
    | reflexivity ].
Defined.

Lemma FindNode_polls_witness :
  Ready running = true
  ∧ FindNode_key key_unknown = (key_unknown, None)
  ∧ peersManager_GetPeers (dht_peersManager running) key_unknown (K (config running)) = []
  ∧ ∃ p, 1 <= p <= 30
       ∧ (∀ j, 1 <= j < p → peersManager_GetPeers (quiet j) key_unknown 8 = [])
       ∧ (p < 30 → peersManager_GetPeers (quiet p) key_unknown 8 ≠ [])
       ∧ time.Second * 1 = 1000000000
       ∧ FindNode running quiet key_unknown
         = (peersManager_GetPeers (quiet p) key_unknown 8, None,
            ev_GetPeers key_unknown 8
            :: ev_GetNeighbors (newBitmapFromString key_unknown) 8
            :: map (λ no, ev_findNode no key_unknown)
                 (routingTable_GetNeighbors (dht_routingTable running)
                    (newBitmapFromString key_unknown) 8)
            ++ ticks key_unknown 8 (Z.to_nat p)).
Proof.
  split; [reflexivity|]. split; [reflexivity|]. split; [reflexivity|].
  apply (FindNode_polls running quiet key_unknown key_unknown); reflexivity.
Defined.

Lemma join_bootstrap_witness :
  (∀ a, In a (PrimeNodes (config starting)) →
        snd (ResolveUDPAddr (Network (config starting)) a) ≠ None)
  ∧ join starting = [ ev_ResolveUDPAddr "udp4" "lbrynet1.lbry.io:4444";
                      ev_ResolveUDPAddr "udp4" "lbrynet2.lbry.io:4444";
                      ev_ResolveUDPAddr "udp4" "lbrynet3.lbry.io:4444" ].
Proof.
  assert (∀ a, In a (PrimeNodes (config starting)) →
               snd (ResolveUDPAddr (Network (config starting)) a) ≠ None) as Hbad.
  { intros a [<-|[<-|[<-|[]]]]; vm_compute; discriminate. }
  split; [exact Hbad|].
  apply (proj2 (proj2 (proj2 (join_bootstrap starting))) Hbad).
Defined.

Lemma Run_tick_witness :
  (routingTable_Len (dht_routingTable alone) = 0 ∧
   Run_select alone on_tick = join alone)
  ∧ (routingTable_Len (dht_routingTable idle) ≠ 0 ∧
     transactionManager_len (dht_transactionManager idle) = 0 ∧
     Run_select idle on_tick = [ev_go_Fresh])
  ∧ (routingTable_Len (dht_routingTable running) ≠ 0 ∧
     transactionManager_len (dht_transactionManager running) ≠ 0 ∧
     Run_select running on_tick = []).
Proof.
  split; [|split].
  - split; [reflexivity|].
    apply (proj1 (Run_tick alone)). reflexivity.
  - split; [vm_compute; discriminate|]. split; [reflexivity|].
    apply (proj1 (proj2 (Run_tick idle))); [vm_compute; discriminate|reflexivity].
  - split; [vm_compute; discriminate|]. split; [vm_compute; discriminate|].
    apply (proj2 (proj2 (Run_tick running))); vm_compute; discriminate.
Defined.


(** C8 as it stands fails on any read error: all the loop does with it is
    the read itself.  Nothing is logged. *)
Lemma listen_read_error_counterexample :
  listen [read_error (errors_New "i/o timeout")]
  = (make_bytes (Z.to_nat 8192), [ev_ReadFromUDP], [])
  ∧ ¬ ∃ msg, In (ev_log msg)
               (snd (fst (listen [read_error (errors_New "i/o timeout")]))).
Proof.
  split; [reflexivity|].
  intros (msg & [Hin|[]]). discriminate.
Qed.

Lemma listen_keeps_reading_witness :
  ∃ buff1 t1 p rest,
    listen ([read_error (errors_New "i/o timeout")] ++ [datagram "ping" (Some loopback)])
    = (buff1, t1 ++ [ev_ReadFromUDP; ev_enqueue p], [])
    ∧ raddr p = Some loopback
    ∧ slice_bytes buff1 (data p) = String.substring 0 (Z.to_nat 8192) "ping"
    ∧ snd (fst (listen [read_error (errors_New "i/o timeout");
                        datagram "ping" (Some loopback);
                        read_error (errors_New "i/o timeout")]))
      = (t1 ++ [ev_ReadFromUDP; ev_enqueue p]) ++ rest.
Proof.
  destruct (listen_keeps_reading
              [read_error (errors_New "i/o timeout");
               datagram "ping" (Some loopback);
               read_error (errors_New "i/o timeout")])
    as (buff & t & Hrun & _ & _ & Hsent).
  destruct (Hsent [read_error (errors_New "i/o timeout")] "ping" (Some loopback)
              [read_error (errors_New "i/o timeout")] eq_refl)
    as (buff1 & t1 & p & rest & H1 & H2 & H3 & H4).
  exists buff1, t1, p, rest. rewrite Hrun. cbn [fst snd]. auto.
Defined.

(** The packets in the queue share the one read buffer: what a packet shows
    is what the latest read left there. *)
Remark listen_packets_share_buffer :
  ∃ buff1 buff2 p t,
    listen [datagram "ping" (Some loopback)] = (buff1, [ev_ReadFromUDP; ev_enqueue p], [])
    ∧ slice_bytes buff1 (data p) = "ping"
    ∧ listen [datagram "ping" (Some loopback); datagram "PONG!" (Some loopback)]
      = (buff2, [ev_ReadFromUDP; ev_enqueue p] ++ t, [])
    ∧ slice_bytes buff2 (data p) = "PONG".
Proof. eexists _, _, _, _. repeat split. Qed.

End dht_facts.

(** ** strconv: which error [ParseInt] returns *)
Module strconv_more.
Import strconv strconv_facts.

(** Digits whose value does not fit a uint64 are a range error, whatever
    follows the digit that overflows. *)
Lemma ParseUint_loop_range (s0 s : string) :
  ∀ n v, 0 <= n < 2 ^ 64 → digits_value n s = Some v → 2 ^ 64 <= v →
         ParseUint_loop s0 n s = (2 ^ 64 - 1, Some (rangeError "ParseUint" s0)).
Proof.
  induction s as [|c s IH]; intros n v Hn; cbn [digits_value ParseUint_loop].
  - intros [= <-] Hv. lia.
  - destruct (is_digit c) eqn:Hc; [|discriminate].
    destruct (digit_of_digit c Hc) as (d & -> & Hd & Hr).
    rewrite <- Hd. intros Hv Hbig. known_constants.
    destruct (Z.geb_spec d 10); [lia|].
    destruct (Z.geb_spec n 1844674407370955162); [reflexivity|].
    rewrite (Z.mod_small (n * 10)) by lia.
    destruct (Z_lt_le_dec (n * 10 + d) 18446744073709551616) as [Hfit|Hwrap].
    + rewrite (Z.mod_small (n * 10 + d)) by lia.
      destruct (Z.ltb_spec (n * 10 + d) (n * 10)); [lia|].
      destruct (Z.gtb_spec (n * 10 + d) (18446744073709551616 - 1)); [lia|].
      cbn [orb]. apply (IH _ v); [lia| |lia].
      rewrite <- Hv. f_equal. lia.
    + assert ((n * 10 + d) mod 18446744073709551616
              = n * 10 + d - 18446744073709551616) as ->.
      { symmetry. apply (Z.mod_unique _ _ 1); lia. }
      destruct (Z.ltb_spec (n * 10 + d - 18446744073709551616) (n * 10)); [|lia].
      reflexivity.
Qed.

Lemma ParseUint_range (s : string) (v : Z) :
  unsigned_literal s = Some v → 2 ^ 64 <= v →
  ParseUint s = (2 ^ 64 - 1, Some (rangeError "ParseUint" s)).
Proof.
  destruct s as [|c s]; [discriminate|].
  unfold unsigned_literal, ParseUint. intros Hv Hbig.
  apply (ParseUint_loop_range _ _ 0 v); [known_constants; lia|exact Hv|exact Hbig].
Qed.

(** Out of the int64 range: a range error that names [ParseInt] and the
    whole argument. *)
Lemma ParseInt_unsigned_range (s0 s : string) (neg : bool) (u : Z) :
  unsigned_literal s = Some u →
  (if neg then - u else u) < - 2 ^ 63 ∨ 2 ^ 63 <= (if neg then - u else u) →
  ∃ r, ParseInt_unsigned s0 neg s = (r, Some (strconv_NumError "ParseInt" s0 ErrRange)).
Proof.
  intros Hu Hout. pose proof (unsigned_literal_nonneg _ _ Hu) as H0.
  unfold ParseInt_unsigned.
  destruct (Z_lt_le_dec u (2 ^ 64)) as [Hfit|Hbig].
  - rewrite (ParseUint_value s u Hu Hfit). known_constants.
    destruct neg; cbn [negb andb].
    + destruct (Z.gtb_spec u 9223372036854775808); [eauto|lia].
    + destruct (Z.geb_spec u 9223372036854775808); [eauto|lia].
  - rewrite (ParseUint_range s u Hu Hbig). known_constants.
    destruct neg; cbn; eauto.
Qed.

(** No literal at all: a syntax error, or a range error when the digits
    before the offending byte already overflow. *)
Lemma ParseInt_unsigned_no_literal (s0 s : string) (neg : bool) :
  unsigned_literal s = None →
  ∃ r kind, ParseInt_unsigned s0 neg s = (r, Some (strconv_NumError "ParseInt" s0 kind)).
Proof.
  intros Hn. unfold ParseInt_unsigned.
  destruct (ParseUint_error s (or_introl Hn)) as [->| ->]; [cbn; eauto|].
  known_constants. destruct neg; cbn; eauto.
Qed.

Lemma ParseInt_range (s : string) (v : Z) :
  integer_literal s = Some v → v < - 2 ^ 63 ∨ 2 ^ 63 <= v →
  ∃ r, ParseInt s = (r, Some (strconv_NumError "ParseInt" s ErrRange)).
Proof.
  destruct s as [|c rest]; [discriminate|].
  unfold integer_literal, ParseInt.
  destruct (Ascii.eqb c "+"); [|destruct (Ascii.eqb c "-")].
  - intros Hu Hr. apply (ParseInt_unsigned_range _ _ false v); assumption.
  - destruct (unsigned_literal rest) as [u|] eqn:Hu; [|discriminate].
    intros [= <-] Hr. apply (ParseInt_unsigned_range _ _ true u); assumption.
  - intros Hu Hr. apply (ParseInt_unsigned_range _ _ false v); assumption.
Qed.

Lemma ParseInt_no_literal (s : string) :
  integer_literal s = None →
  ∃ r kind, ParseInt s = (r, Some (strconv_NumError "ParseInt" s kind)).
Proof.
  destruct s as [|c rest]; [intros _; cbn; eauto|].
  unfold integer_literal, ParseInt.
  destruct (Ascii.eqb c "+"); [|destruct (Ascii.eqb c "-")].
  - apply ParseInt_unsigned_no_literal.
  - destruct (unsigned_literal rest) eqn:Hu; [discriminate|].
    intros _. apply ParseInt_unsigned_no_literal. exact Hu.
  - apply ParseInt_unsigned_no_literal.
Qed.

End strconv_more.

(** ** package jsonrpc: the errors, the enum destinations, decoding twice *)
Module jsonrpc_more.
Import strconv jsonrpc jsonrpc_example jsonrpc_tables.

(** X1. The two errors of [getEnumVal] and when each is returned: "expected
    a string" on a datum that is no string, "invalid enum key" on a string
    the map has no entry for.  The number that comes with an error is 0. *)
Theorem getEnumVal_errors (enum : gmap string Z) (data : value) :
  ((∀ s, data ≠ v_string s) →
     getEnumVal enum data = (0, Some (errors_New "expected a string")))
  ∧ (∀ s, data = v_string s → enum !! s = None →
          getEnumVal enum data = (0, Some (errors_New "invalid enum key")))
  ∧ (∀ val e, getEnumVal enum data = (val, Some e) → val = 0).
Proof.
  split; [|split].
  - intros Hno. destruct data; try reflexivity. exfalso. eapply Hno. reflexivity.
  - intros s -> Hs. cbn. rewrite Hs. reflexivity.
  - intros val e. destruct data as [| | |s| | | | | |]; cbn;
      try (intros [= <- _]; reflexivity).
    destruct (enum !! s); [discriminate|]. intros [= <- _]. reflexivity.
Qed.

Lemma getEnumVal_errors_witness :
  getEnumVal Metadata_Version_example (v_Number "3")
  = (0, Some (errors_New "expected a string"))
  ∧ (Metadata_Version_example !! "_9_9_9" = None ∧
     getEnumVal Metadata_Version_example (v_string "_9_9_9")
     = (0, Some (errors_New "invalid enum key"))).
Proof.
  split.
  - apply (proj1 (getEnumVal_errors Metadata_Version_example (v_Number "3"))).
    intros s. discriminate.
  - split; [reflexivity|].
    apply (proj1 (proj2 (getEnumVal_errors Metadata_Version_example (v_string "_9_9_9")))
             "_9_9_9"); reflexivity.
Defined.

(** X2. Each of the twelve enum destinations is looked up in its own table.
    A string that is a name of the table becomes the value of the
    destination type with the number of that name; anything else comes back
    as the zero value of the destination type, with the error of
    [getEnumVal]. *)
Theorem fixDecodeProto_enum `{lbryschema} (src dest : rtype) (tbl : gmap string Z)
    (data : value) :
  enum_table dest = Some tbl →
  (∀ s val, data = v_string s → tbl !! s = Some val →
            fixDecodeProto src dest data = (v_enum dest val, None))
  ∧ ((∀ s, data ≠ v_string s) →
     fixDecodeProto src dest data
     = (v_enum dest 0, Some (errors_New "expected a string")))
  ∧ (∀ s, data = v_string s → tbl !! s = None →
          fixDecodeProto src dest data
          = (v_enum dest 0, Some (errors_New "invalid enum key"))).
Proof.
  intros Htbl.
  assert (fixDecodeProto src dest data = enum_case dest tbl data) as ->.
  { destruct dest; cbn in Htbl; try discriminate;
      injection Htbl as <-; reflexivity. }
  unfold enum_case. split; [|split].
  - intros s val -> Hs. cbn. rewrite Hs. reflexivity.
  - intros Hno. destruct data; try reflexivity. exfalso. eapply Hno. reflexivity.
  - intros s -> Hs. cbn. rewrite Hs. reflexivity.
Qed.

Lemma fixDecodeProto_enum_witness :
  enum_table (H := lbryschema_example) t_Fee_Currency
  = Some (Fee_Currency_value (lbryschema := lbryschema_example))
  ∧ fixDecodeProto (H := lbryschema_example) (t_other "string") t_Fee_Currency
      (v_string "BTC") = (v_enum t_Fee_Currency 2, None)
  ∧ fixDecodeProto (H := lbryschema_example) (t_other "string") t_Fee_Currency
      (v_Number "2") = (v_enum t_Fee_Currency 0, Some (errors_New "expected a string"))
  ∧ fixDecodeProto (H := lbryschema_example) (t_other "string") t_Fee_Currency
      (v_string "EUR") = (v_enum t_Fee_Currency 0, Some (errors_New "invalid enum key")).
Proof.
  split; [reflexivity|]. split; [|split].
  - apply (proj1 (fixDecodeProto_enum (H := lbryschema_example) (t_other "string")
                    t_Fee_Currency _ (v_string "BTC") eq_refl) "BTC" 2); reflexivity.
  - apply (proj1 (proj2 (fixDecodeProto_enum (H := lbryschema_example) (t_other "string")
                           t_Fee_Currency _ (v_Number "2") eq_refl))).
    intros s. discriminate.
  - apply (proj2 (proj2 (fixDecodeProto_enum (H := lbryschema_example) (t_other "string")
                           t_Fee_Currency _ (v_string "EUR") eq_refl)) "EUR");
      reflexivity.
Defined.



(** X4. Which error a json.Number aimed at uint64 gets.  A negative
    integer that fits an int64: "must be unsigned int".  An integer outside
    the int64 range, the uint64 values from 2^63 on included: the range
    error of [strconv.ParseInt], naming the number.  A string that is no
    integer literal: an error of [strconv.ParseInt] naming the number.  The
    value is nil each time. *)
Theorem fixDecodeProto_uint64_errors `{lbryschema} (src : rtype) (n : string) :
  (∀ v, integer_literal n = Some v → - 2 ^ 63 <= v < 0 →
        fixDecodeProto src t_uint64 (v_Number n)
        = (v_nil, Some (errors_New "must be unsigned int")))
  ∧ (∀ v, integer_literal n = Some v → v < - 2 ^ 63 ∨ 2 ^ 63 <= v →
          fixDecodeProto src t_uint64 (v_Number n)
          = (v_nil, Some (strconv_NumError "ParseInt" n ErrRange)))
  ∧ (integer_literal n = None →
     ∃ kind, fixDecodeProto src t_uint64 (v_Number n)
             = (v_nil, Some (strconv_NumError "ParseInt" n kind))).
Proof.
  cbn [fixDecodeProto]. unfold Number_Int64. split; [|split].
  - intros v Hv Hr. rewrite (strconv_facts.ParseInt_value n v Hv) by lia.
    destruct (Z.ltb_spec v 0); [reflexivity|lia].
  - intros v Hv Hr. destruct (strconv_more.ParseInt_range n v Hv Hr) as (r & ->).
    reflexivity.
  - intros Hn. destruct (strconv_more.ParseInt_no_literal n Hn) as (r & kind & ->).
    exists kind. reflexivity.
Qed.

Lemma fixDecodeProto_uint64_errors_witness :
  (integer_literal "-42" = Some (-42) ∧ - 2 ^ 63 <= -42 < 0 ∧
   fixDecodeProto (H := lbryschema_example) (t_other "json.Number") t_uint64
     (v_Number "-42") = (v_nil, Some (errors_New "must be unsigned int")))
  ∧ (integer_literal "9223372036854775808" = Some 9223372036854775808 ∧
     2 ^ 63 <= 9223372036854775808 ∧
     fixDecodeProto (H := lbryschema_example) (t_other "json.Number") t_uint64
       (v_Number "9223372036854775808")
     = (v_nil, Some (strconv_NumError "ParseInt" "9223372036854775808" ErrRange)))
  ∧ (integer_literal "1.5" = None ∧
     ∃ kind, fixDecodeProto (H := lbryschema_example) (t_other "json.Number") t_uint64
               (v_Number "1.5") = (v_nil, Some (strconv_NumError "ParseInt" "1.5" kind))).
Proof.
  split; [|split].
  - split; [reflexivity|]. split; [vm_compute; intuition discriminate|].
    apply (proj1 (fixDecodeProto_uint64_errors (H := lbryschema_example)
                    (t_other "json.Number") "-42") (-42));
      [reflexivity|vm_compute; intuition discriminate].
  - split; [reflexivity|]. split; [vm_compute; discriminate|].
    apply (proj1 (proj2 (fixDecodeProto_uint64_errors (H := lbryschema_example)
                           (t_other "json.Number") "9223372036854775808"))
             9223372036854775808); [reflexivity|right; vm_compute; discriminate].
  - split; [reflexivity|].
    apply (proj2 (proj2 (fixDecodeProto_uint64_errors (H := lbryschema_example)
                           (t_other "json.Number") "1.5"))). reflexivity.
Defined.

(** X5. What a json.Number aimed at uint64 can become: when there is no
    error the result is a uint64, it is the integer the literal says, and it
    is below 2^63.  No number from 2^63 on is ever returned. *)
Theorem fixDecodeProto_uint64_sound `{lbryschema} (src : rtype) (n : string) (r : value) :
  fixDecodeProto src t_uint64 (v_Number n) = (r, None) →
  ∃ v, r = v_uint64 v ∧ integer_literal n = Some v ∧ 0 <= v < 2 ^ 63.
Proof.
  cbn [fixDecodeProto]. unfold Number_Int64.
  destruct (integer_literal n) as [v|] eqn:Hv.
  - destruct (Z_lt_le_dec v (- 2 ^ 63)) as [Hlow|Hlow].
    { destruct (strconv_more.ParseInt_range n v Hv (or_introl Hlow)) as (x & ->).
      discriminate. }
    destruct (Z_lt_le_dec v (2 ^ 63)) as [Hhigh|Hhigh].
    2: { destruct (strconv_more.ParseInt_range n v Hv (or_intror Hhigh)) as (x & ->).
         discriminate. }
    rewrite (strconv_facts.ParseInt_value n v Hv (conj Hlow Hhigh)).
    destruct (Z.ltb_spec v 0); [discriminate|].
    intros [= <-]. exists v. split; [|split; [reflexivity|lia]].
    rewrite Z.mod_small; [reflexivity|]. strconv_facts.known_constants. lia.
  - destruct (strconv_more.ParseInt_no_literal n Hv) as (x & kind & ->). discriminate.
Qed.

Lemma fixDecodeProto_uint64_sound_witness :
  fixDecodeProto (H := lbryschema_example) (t_other "json.Number") t_uint64
    (v_Number "+0017") = (v_uint64 17, None)
  ∧ ∃ v, v_uint64 17 = v_uint64 v ∧ integer_literal "+0017" = Some v ∧ 0 <= v < 2 ^ 63.
Proof.
  split; [reflexivity|].
  apply (fixDecodeProto_uint64_sound (H := lbryschema_example)
           (t_other "json.Number") "+0017" (v_uint64 17)). reflexivity.
Defined.

(** X6. Decoding what was decoded.  For uint64, []byte and a type that is
    not listed, a value that came out without an error goes through a second
    time unchanged.  For an enum destination it does not: the value that
    came out is no string, so the second time gives "expected a string". *)
Theorem fixDecodeProto_twice `{lbryschema} (src dest : rtype) (data r : value) :
  fixDecodeProto src dest data = (r, None) →
  (enum_table dest = None → fixDecodeProto src dest r = (r, None))
  ∧ (∀ tbl, enum_table dest = Some tbl →
            fixDecodeProto src dest r
            = (v_enum dest 0, Some (errors_New "expected a string"))).
Proof.
  intros Hfix. split.
  - intros Hnone. destruct dest; cbn in Hnone; try discriminate.
    + destruct data as [| | | |n| | | | |];
        try (injection Hfix as <-; reflexivity).
      cbn [fixDecodeProto] in Hfix.
      destruct (Number_Int64 n) as [val [err|]]; [discriminate|].
      destruct (val <? 0); [discriminate|]. injection Hfix as <-. reflexivity.
    + destruct data; injection Hfix as <-; reflexivity.
    + injection Hfix as <-. reflexivity.
  - intros tbl Htbl.
    assert (∃ val, r = v_enum dest val) as (val & ->).
    { destruct dest; cbn in Htbl; try discriminate; cbn [fixDecodeProto] in Hfix;
        unfold enum_case in Hfix;
        match type of Hfix with
        | (let (_, _) := getEnumVal ?t data in _) = _ =>
            destruct (getEnumVal t data) as [val err]
        end; injection Hfix as <- _; eauto. }
    destruct dest; cbn in Htbl; try discriminate; reflexivity.
Qed.

Lemma fixDecodeProto_twice_witness :
  (fixDecodeProto (H := lbryschema_example) (t_other "string") t_bytes (v_string "abc")
   = (v_bytes "abc", None)
   ∧ fixDecodeProto (H := lbryschema_example) (t_other "string") t_bytes (v_bytes "abc")
     = (v_bytes "abc", None))
  ∧ (fixDecodeProto (H := lbryschema_example) (t_other "string") t_KeyType
       (v_string "NIST256p") = (v_enum t_KeyType 1, None)
     ∧ fixDecodeProto (H := lbryschema_example) (t_other "string") t_KeyType
         (v_enum t_KeyType 1)
       = (v_enum t_KeyType 0, Some (errors_New "expected a string"))).
Proof.
  split.
  - split; [reflexivity|].
    apply (proj1 (fixDecodeProto_twice (H := lbryschema_example) (t_other "string")
                    t_bytes (v_string "abc") (v_bytes "abc") eq_refl)). reflexivity.
  - split; [reflexivity|].
    apply (proj2 (fixDecodeProto_twice (H := lbryschema_example) (t_other "string")
                    t_KeyType (v_string "NIST256p") (v_enum t_KeyType 1) eq_refl)
             (KeyType_value (lbryschema := lbryschema_example))). reflexivity.
Defined.

End jsonrpc_more.

(** ** package dht: more of [FindNode], [New], [listen] and [Run] *)
Module dht_more.
Import dht dht_run dht_facts.

Section more.
Context `{Startup}.

(** *** FindNode *)

Lemma ticks_ticks (key : string) (k : Z) (p : nat) :
  length (List.filter is_tick (ticks key k p)) = p
  ∧ length (List.filter is_GetPeers (ticks key k p)) = p
  ∧ ∀ no target, ¬ In (ev_findNode no target) (ticks key k p).
Proof.
  unfold ticks. induction p as [|p (IH1 & IH2 & IH3)]; cbn.
  - repeat split. intros no target [].
  - repeat split; [f_equal; exact IH1|f_equal; exact IH2|].
    intros no target [Hin|[Hin|Hin]]; try discriminate. exact (IH3 no target Hin).
Qed.

Lemma sends_no_ticks (key : string) (l : list node) :
  List.filter is_tick (map (λ no, ev_findNode no key) l) = []
  ∧ List.filter is_GetPeers (map (λ no, ev_findNode no key) l) = [].
Proof. induction l as [|no l [IH1 IH2]]; cbn; auto. Qed.

(** The four ways [FindNode] can go. *)
Lemma FindNode_cases (dht : DHT) (later : Z → option peersManager) (key : string) :
  (Ready dht = false
   ∧ FindNode dht later key = ([], Some (errors_New "dht not ready"), []))
  ∨ (Ready dht = true ∧ len key = nodeIDLength * 2 ∧ hex.valid_hex key = false
     ∧ ∃ e, FindNode dht later key = ([], Some e, []))
  ∨ (Ready dht = true
     ∧ (len key = nodeIDLength * 2 → hex.valid_hex key = true)
     ∧ ∃ key', FindNode_key key = (key', None)
        ∧ peersManager_GetPeers (dht_peersManager dht) key' (K (config dht)) ≠ []
        ∧ FindNode dht later key
          = (peersManager_GetPeers (dht_peersManager dht) key' (K (config dht)), None,
             [ev_GetPeers key' (K (config dht))]))
  ∨ (Ready dht = true
     ∧ (len key = nodeIDLength * 2 → hex.valid_hex key = true)
     ∧ ∃ key' p, FindNode_key key = (key', None)
        ∧ peersManager_GetPeers (dht_peersManager dht) key' (K (config dht)) = []
        ∧ 1 <= p <= 30
        ∧ (∀ j, 1 <= j < p → peersManager_GetPeers (later j) key' (K (config dht)) = [])
        ∧ (p < 30 → peersManager_GetPeers (later p) key' (K (config dht)) ≠ [])
        ∧ FindNode dht later key
          = (peersManager_GetPeers (later p) key' (K (config dht)), None,
             ev_GetPeers key' (K (config dht))
             :: ev_GetNeighbors (newBitmapFromString key') (K (config dht))
             :: map (λ no, ev_findNode no key')
                  (routingTable_GetNeighbors (dht_routingTable dht)
                     (newBitmapFromString key') (K (config dht)))
             ++ ticks key' (K (config dht)) (Z.to_nat p))).
Proof.
  destruct (Ready dht) eqn:Hr.
  2: { left. split; [reflexivity|]. unfold FindNode. rewrite Hr. reflexivity. }
  right. unfold FindNode. rewrite Hr. cbn [negb].
  destruct (FindNode_key key) as [key' [e|]] eqn:Hk.
  - left. split; [reflexivity|].
    unfold FindNode_key in Hk.
    destruct (Z.eqb_spec (len key) (nodeIDLength * 2)) as [Hlen|]; [|discriminate].
    split; [exact Hlen|]. split; [|eauto].
    destruct (hex.valid_hex key) eqn:Hv; [|reflexivity].
    apply hex_facts.DecodeString_error_iff in Hv. rewrite Hk in Hv. discriminate.
  - right.
    assert (len key = nodeIDLength * 2 → hex.valid_hex key = true) as Hvalid.
    { intros Hlen. apply hex_facts.DecodeString_error_iff.
      unfold FindNode_key in Hk. rewrite Hlen, Z.eqb_refl in Hk. rewrite Hk.
      reflexivity. }
    destruct (Z.of_nat (length (peersManager_GetPeers (dht_peersManager dht) key'
                                  (K (config dht)))) =? 0) eqn:Hlen; cbn [negb].
    + right. split; [reflexivity|]. split; [exact Hvalid|].
      apply len_zero_nil in Hlen.
      destruct (poll_stops later key' (K (config dht)) (Z.to_nat 30) 0)
        as (p & Hp & Hempty & Hfound & Hpoll); [reflexivity|lia|].
      exists key', p. split; [reflexivity|]. split; [exact Hlen|].
      split; [lia|]. split; [intros j Hj; apply Hempty; lia|].
      split; [exact Hfound|].
      rewrite Hpoll. replace (p - 0) with p by lia. reflexivity.
    + left. split; [reflexivity|]. split; [exact Hvalid|].
      exists key'. split; [reflexivity|]. split; [|reflexivity].
      intros Hnil. apply len_zero_nil in Hnil. congruence.
Qed.

(** X7. When [FindNode] fails.  It returns an error exactly when the node is
    not ready or the key has twice the identifier length and is not valid
    hex.  It fails first: with an error come no peers and an empty trace. *)
Theorem FindNode_errors (dht : DHT) (later : Z → option peersManager) (key : string) :
  (snd (fst (FindNode dht later key)) ≠ None
   ↔ Ready dht = false ∨ (len key = nodeIDLength * 2 ∧ hex.valid_hex key = false))
  ∧ (∀ peers e t, FindNode dht later key = (peers, Some e, t) → peers = [] ∧ t = []).
Proof.
  destruct (FindNode_cases dht later key)
    as [(Hr & ->)|[(Hr & Hlen & Hbad & e & ->)|[(Hr & Hv & k' & _ & _ & ->)
       |(Hr & Hv & k' & p & _ & _ & _ & _ & _ & ->)]]]; cbn [fst snd]; split.
  - split; [auto|discriminate].
  - intros peers e t [= <- _ <-]. auto.
  - split; [auto|discriminate].
  - intros peers e' t [= <- _ <-]. auto.
  - split; [congruence|]. intros [Hn|[Hlen Hbad]]; [congruence|].
    rewrite (Hv Hlen) in Hbad. discriminate.
  - intros peers e t. discriminate.
  - split; [congruence|]. intros [Hn|[Hlen Hbad]]; [congruence|].
    rewrite (Hv Hlen) in Hbad. discriminate.
  - intros peers e t. discriminate.
Qed.

(** X8. How long [FindNode] can wait and how often it asks.  Whatever the
    node, the key and the peers manager do, the trace has at most 30 ticks
    of the ticker and at most 31 queries of the peers manager. *)
Theorem FindNode_bounded (dht : DHT) (later : Z → option peersManager) (key : string) :
  (length (List.filter is_tick (snd (FindNode dht later key))) <= 30)%nat
  ∧ (length (List.filter is_GetPeers (snd (FindNode dht later key))) <= 31)%nat.
Proof.
  destruct (FindNode_cases dht later key)
    as [(Hr & ->)|[(Hr & Hlen & Hbad & e & ->)|[(Hr & Hv & k' & _ & _ & ->)
       |(Hr & Hv & k' & p & _ & _ & Hp & _ & _ & ->)]]]; cbn [fst snd];
    try (cbn; lia).
  cbn [List.filter is_tick is_GetPeers].
  rewrite !List.filter_app.
  destruct (sends_no_ticks k' (routingTable_GetNeighbors (dht_routingTable dht)
                                 (newBitmapFromString k') (K (config dht)))) as [-> ->].
  destruct (ticks_ticks k' (K (config dht)) (Z.to_nat p)) as (Ht & Hg & _).
  cbn [app length]. rewrite Ht, Hg. lia.
Qed.

(** X9. When [FindNode] sends a find_node.  Every find_node in its trace
    goes to a neighbour the routing table gave for the key looked up, and
    asks for that key; there is one only if the node is ready, the key was
    well formed and the peers manager had no peer for it at the start. *)
Theorem FindNode_queries (dht : DHT) (later : Z → option peersManager) (key : string)
    (no : node) (target : string) :
  In (ev_findNode no target) (snd (FindNode dht later key)) →
  Ready dht = true
  ∧ FindNode_key key = (target, None)
  ∧ peersManager_GetPeers (dht_peersManager dht) target (K (config dht)) = []
  ∧ In no (routingTable_GetNeighbors (dht_routingTable dht)
             (newBitmapFromString target) (K (config dht))).
Proof.
  destruct (FindNode_cases dht later key)
    as [(Hr & ->)|[(Hr & Hlen & Hbad & e & ->)|[(Hr & Hv & k' & _ & _ & ->)
       |(Hr & Hv & k' & p & Hk & Hnone & _ & _ & _ & ->)]]]; cbn [fst snd].
  - intros [].
  - intros [].
  - intros [Hin|[]]. discriminate.
  - intros [Hin|[Hin|Hin]]; try discriminate.
    apply in_app_or in Hin as [Hin|Hin].
    + apply in_map_iff in Hin as (no' & [= -> ->] & Hin). auto.
    + exfalso. exact (proj2 (proj2 (ticks_ticks _ _ _)) _ _ Hin).
Qed.

(** X10. What an empty answer means.  When [FindNode] returns no peers and
    no error, the node was ready, the peers manager had nothing for the key
    at the start and at each of 30 polls, and the call waited for all 30
    ticks. *)
Theorem FindNode_empty_handed (dht : DHT) (later : Z → option peersManager)
    (key : string) (t : trace) :
  FindNode dht later key = ([], None, t) →
  Ready dht = true
  ∧ ∃ key', FindNode_key key = (key', None)
      ∧ peersManager_GetPeers (dht_peersManager dht) key' (K (config dht)) = []
      ∧ (∀ j, 1 <= j <= 30 →
              peersManager_GetPeers (later j) key' (K (config dht)) = [])
      ∧ length (List.filter is_tick t) = 30%nat.
Proof.
  destruct (FindNode_cases dht later key)
    as [(Hr & ->)|[(Hr & Hlen & Hbad & e & ->)|[(Hr & Hv & k' & Hk & Hsome & ->)
       |(Hr & Hv & k' & p & Hk & Hnone & Hp & Hempty & Hfound & ->)]]];
    try discriminate.
  - intros [= Hnil _]. congruence.
  - intros [= Hnil <-]. split; [exact Hr|]. exists k'.
    assert (p = 30) as ->.
    { destruct (Z_lt_le_dec p 30) as [Hlt|Hge]; [|lia].
      exfalso. exact (Hfound Hlt Hnil). }
    split; [exact Hk|]. split; [exact Hnone|]. split.
    + intros j Hj. destruct (Z.eq_dec j 30) as [->|]; [exact Hnil|apply Hempty; lia].
    + cbn [List.filter is_tick]. rewrite List.filter_app.
      rewrite (proj1 (sends_no_ticks _ _)).
      exact (proj1 (ticks_ticks _ _ _)).
Qed.

Lemma fromHexChar_upper (c : ascii) :
  hex.fromHexChar (upper_hex_digit c) = hex.fromHexChar c
  ∧ (snd (hex.fromHexChar c) = false → upper_hex_digit c = c).
Proof. destruct c as [[] [] [] [] [] [] [] []]; split; first [reflexivity|discriminate]. Qed.

Lemma Decode_upper (s : string) : hex.Decode (upper_hex s) = hex.Decode s.
Proof.
  induction s as [|p|p q rest IH] using hex_facts.string_pairs_ind.
  - reflexivity.
  - cbn [upper_hex hex.Decode].
    destruct (fromHexChar_upper p) as [Hp Hid]. rewrite Hp.
    destruct (snd (hex.fromHexChar p)) eqn:Hok; [reflexivity|].
    rewrite (Hid eq_refl). reflexivity.
  - cbn [upper_hex hex.Decode].
    destruct (fromHexChar_upper p) as [Hp Hidp], (fromHexChar_upper q) as [Hq Hidq].
    rewrite Hp, Hq.
    destruct (hex.fromHexChar p) as [a okp], (hex.fromHexChar q) as [b okq].
    cbn [snd] in Hidp, Hidq.
    destruct okp; cbn [negb]; [|rewrite (Hidp eq_refl); reflexivity].
    destruct okq; cbn [negb]; [|rewrite (Hidq eq_refl); reflexivity].
    rewrite IH. reflexivity.
Qed.

Lemma length_upper_hex (s : string) : String.length (upper_hex s) = String.length s.
Proof. induction s as [|c s IH]; simpl; [reflexivity|]. f_equal. exact IH. Qed.

(** X11. The case of the hex key does not matter.  For a key of twice the
    identifier length, [FindNode] does the same on the key and on the key
    with its letters a to f in upper case: the same peers, the same error,
    the same trace. *)
Theorem FindNode_hex_case (dht : DHT) (later : Z → option peersManager) (key : string) :
  len key = nodeIDLength * 2 →
  FindNode dht later (upper_hex key) = FindNode dht later key.
Proof.
  intros Hlen. unfold FindNode.
  assert (FindNode_key (upper_hex key) = FindNode_key key) as ->; [|reflexivity].
  unfold FindNode_key, len, hex.DecodeString in *.
  rewrite length_upper_hex, Decode_upper, Hlen, Z.eqb_refl. reflexivity.
Qed.

(** *** New *)

(** X12. What [New] returns is not started: it is not ready, it has no
    socket, no routing table and no managers, and its two queues are empty.
    So [FindNode] on it fails with "dht not ready", whatever the key. *)
Theorem New_not_started (c : option Config) (rnd : string) (d : DHT) :
  New c rnd = Returns d →
  Ready d = false
  ∧ conn d = None ∧ dht_routingTable d = None ∧ dht_transactionManager d = None
  ∧ dht_peersManager d = None ∧ dht_tokenManager d = None
  ∧ queued (packets d) = [] ∧ queued (workerTokens d) = []
  ∧ ∀ later key, FindNode d later key = ([], Some (errors_New "dht not ready"), []).
Proof.
  unfold New, make_chan.
  destruct (newNode _ _ _) as [nd [e|]]; [discriminate|].
  destruct (PacketJobLimit _ <? 0); [discriminate|].
  destruct (PacketWorkerLimit _ <? 0); [discriminate|].
  intros [= <-]. repeat split.
Qed.


(** *** join *)

(** X14. How much [join] does: one resolution for each prime node and one
    find_node for each that resolves, so between one and two events for
    each prime node, and nothing at all without prime nodes. *)
Theorem join_size (dht : DHT) :
  length (join dht)
  = (length (PrimeNodes (config dht)) + length (resolved dht))%nat
  ∧ (length (PrimeNodes (config dht)) <= length (join dht)
     <= 2 * length (PrimeNodes (config dht)))%nat
  ∧ (PrimeNodes (config dht) = [] → join dht = []).
Proof.
  unfold join, resolved.
  assert (∀ addrs,
            length (join_range dht addrs)
            = (length addrs
               + length (omap (λ a, match ResolveUDPAddr (Network (config dht)) a with
                                    | (raddr, None) => Some raddr
                                    | (_, Some _) => None
                                    end) addrs))%nat
            ∧ (length (omap (λ a, match ResolveUDPAddr (Network (config dht)) a with
                                  | (raddr, None) => Some raddr
                                  | (_, Some _) => None
                                  end) addrs) <= length addrs)%nat) as Hlen.
  { induction addrs as [|a addrs [IH1 IH2]]; [split; reflexivity|].
    cbn. cbn in IH1, IH2.
    destruct (ResolveUDPAddr _ a) as [raddr [e|]]; cbn; rewrite IH1; split; lia. }
  destruct (Hlen (PrimeNodes (config dht))) as [Hsum Hle].
  split; [exact Hsum|]. split; [lia|].
  intros ->. reflexivity.
Qed.

(** *** listen *)

Lemma prefix_append_le (s1 s2 : string) :
  ∀ n, (n <= String.length s1)%nat →
       String.substring 0 n (String.append s1 s2) = String.substring 0 n s1.
Proof.
  induction s1 as [|c s1 IH]; intros [|n] Hn; simpl in *; try reflexivity.
  - destruct s2; reflexivity.
  - lia.
  - f_equal. apply IH. lia.
Qed.

Lemma prefix_prefix (s : string) :
  ∀ n m, (n <= m)%nat →
         String.substring 0 n (String.substring 0 m s) = String.substring 0 n s.
Proof.
  induction s as [|c s IH]; intros [|n] [|m] Hnm; simpl; try reflexivity; try lia.
  f_equal. apply IH. lia.
Qed.

(** What a read leaves: the count, the size of the buffer, and the buffer
    itself. *)
Lemma ReadFromUDP_copy_full (buff payload : string) :
  String.length buff = Z.to_nat 8192 →
  ∃ buff',
    ReadFromUDP_copy buff payload = (buff', Z.min (len payload) 8192)
    ∧ String.length buff' = Z.to_nat 8192
    ∧ buff' = String.append
                (String.substring 0 (Z.to_nat (Z.min (len payload) 8192)) payload)
                (String.substring (Z.to_nat (Z.min (len payload) 8192))
                   (Z.to_nat 8192 - Z.to_nat (Z.min (len payload) 8192)) buff).
Proof.
  intros Hlen.
  destruct (ReadFromUDP_copy_spec buff payload) as (b & n & Hcopy & Hb & _).
  unfold ReadFromUDP_copy in *.
  assert (len buff = 8192) as Hl by (unfold len; lia).
  rewrite Hl, Hlen in *. injection Hcopy as <- <-.
  eexists. split; [reflexivity|]. split; [congruence|reflexivity].
Qed.

Lemma enqueued_step (p : packet) (t : trace) :
  enqueued (ev_ReadFromUDP :: ev_enqueue p :: t) = p :: enqueued t
  ∧ enqueued (ev_ReadFromUDP :: t) = enqueued t.
Proof. split; reflexivity. Qed.

Lemma datagrams_step (payload : string) (from : option net.UDPAddr) (e : error)
    (reads : list udp_read) :
  datagrams (datagram payload from :: reads) = (payload, from) :: datagrams reads
  ∧ datagrams (read_error e :: reads) = datagrams reads.
Proof. split; reflexivity. Qed.

Lemma listen_loop_packets (reads : list udp_read) :
  ∀ buff, String.length buff = Z.to_nat 8192 →
    ∃ buff' t,
      listen_loop buff reads = (buff', t, [])
      ∧ String.length buff' = Z.to_nat 8192
      ∧ enqueued t = map packet_of (datagrams reads).
Proof.
  induction reads as [|r reads IH]; intros buff Hlen.
  - exists buff, []. repeat split. exact Hlen.
  - cbn [listen_loop]. destruct r as [payload from|e]; cbn [listen_body].
    + destruct (ReadFromUDP_copy_full buff payload Hlen) as (b1 & -> & Hlen1 & _).
      destruct (IH b1 Hlen1) as (b2 & t & -> & Hlen2 & Hq).
      eexists _, _. split; [reflexivity|]. split; [exact Hlen2|].
      change ([ev_ReadFromUDP; ev_enqueue ?p] ++ t)
        with (ev_ReadFromUDP :: ev_enqueue p :: t).
      rewrite (proj1 (enqueued_step _ _)), (proj1 (datagrams_step _ _ hex_ErrLength _)).
      rewrite Hq. reflexivity.
    + destruct (IH buff Hlen) as (b2 & t & -> & Hlen2 & Hq).
      eexists _, _. split; [reflexivity|]. split; [exact Hlen2|].
      change ([ev_ReadFromUDP] ++ t) with (ev_ReadFromUDP :: t).
      rewrite (proj2 (enqueued_step {| data := {| s_off := 0; s_len := 0 |};
                                       raddr := None |} _)),
        (proj2 (datagrams_step EmptyString None e _)).
      exact Hq.
Qed.

(** X15. What the listening loop sends to the packet queue: one packet for
    each datagram read, in the order of the reads and nothing for a read
    error.  The packet of a datagram is the slice of the buffer from 0 to
    the length of the datagram, 8192 at most, with the sender's address.
    The buffer keeps its 8192 bytes. *)
Theorem listen_packets (reads : list udp_read) :
  ∃ buff t,
    listen reads = (buff, t, [])
    ∧ String.length buff = Z.to_nat 8192
    ∧ enqueued t = map packet_of (datagrams reads)
    ∧ ∀ p, In p (enqueued t) → s_off (data p) = 0 ∧ 0 <= s_len (data p) <= 8192.
Proof.
  unfold listen.
  destruct (listen_loop_packets reads (make_bytes (Z.to_nat 8192))
              (length_make_bytes _)) as (buff & t & Hrun & Hlen & Hq).
  exists buff, t. split; [exact Hrun|]. split; [exact Hlen|]. split; [exact Hq|].
  intros p Hin. rewrite Hq in Hin. apply in_map_iff in Hin as ([payload from] & <- & _).
  unfold packet_of, len. cbn [data s_off s_len fst]. lia.
Qed.

(** X16. The packets in the queue are not copies.  After a datagram [a] is
    read and its packet sent, the read of a datagram [b] that is at least as
    long overwrites what that packet shows: the packet of [a] now shows the
    first bytes of [b]. *)
Theorem listen_overwrites (pre : list udp_read) (a b : string)
    (fa fb : option net.UDPAddr) :
  (String.length a <= String.length b)%nat →
  ∃ buff1 buff2 t p q,
    listen (pre ++ [datagram a fa])
    = (buff1, t ++ [ev_ReadFromUDP; ev_enqueue p], [])
    ∧ slice_bytes buff1 (data p) = String.substring 0 (Z.to_nat 8192) a
    ∧ listen (pre ++ [datagram a fa; datagram b fb])
      = (buff2, t ++ [ev_ReadFromUDP; ev_enqueue p; ev_ReadFromUDP; ev_enqueue q], [])
    ∧ slice_bytes buff2 (data p)
      = String.substring 0 (Z.to_nat (s_len (data p))) b.
Proof.
  intros Hab. unfold listen. set (buff0 := make_bytes (Z.to_nat 8192)).
  assert (String.length buff0 = Z.to_nat 8192) as Hlen0 by apply length_make_bytes.
  destruct (listen_loop_packets pre buff0 Hlen0) as (b0 & t & Hpre & Hl0 & _).
  destruct (ReadFromUDP_copy_full b0 a Hl0) as (b1 & Hca & Hl1 & Hb1).
  destruct (ReadFromUDP_copy_full b1 b Hl1) as (b2 & Hcb & Hl2 & Hb2).
  set (p := {| data := {| s_off := 0; s_len := Z.min (len a) 8192 |}; raddr := fa |}).
  set (q := {| data := {| s_off := 0; s_len := Z.min (len b) 8192 |}; raddr := fb |}).
  assert (listen_loop b0 [datagram a fa]
          = (b1, [ev_ReadFromUDP; ev_enqueue p], [])) as Hone.
  { cbn [listen_loop listen_body]. rewrite Hca. reflexivity. }
  assert (listen_loop b0 [datagram a fa; datagram b fb]
          = (b2, [ev_ReadFromUDP; ev_enqueue p; ev_ReadFromUDP; ev_enqueue q], []))
    as Htwo.
  { cbn [listen_loop listen_body]. rewrite Hca, Hcb. reflexivity. }
  exists b1, b2, t, p, q. split; [|split; [|split]].
  - apply (listen_loop_app pre _ buff0 b0 t b1 _ Hpre Hone).
  - destruct (ReadFromUDP_copy_spec b0 a) as (b1' & n & Hc & _ & Hbytes).
    rewrite Hca in Hc. injection Hc as <- <-.
    subst p. cbn [data]. rewrite Hbytes, Hl0. reflexivity.
  - apply (listen_loop_app pre _ buff0 b0 t b2 _ Hpre Htwo).
  - subst p. cbn [data s_len]. unfold slice_bytes. cbn [s_off s_len].
    change (Z.to_nat 0) with 0%nat. rewrite Hb2.
    set (na := Z.to_nat (Z.min (len a) 8192)).
    set (nb := Z.to_nat (Z.min (len b) 8192)).
    assert (na <= nb)%nat as Hle by (unfold na, nb, len; lia).
    assert (String.length (String.substring 0 nb b) = nb) as Hpre_b.
    { rewrite length_substring. unfold nb, len. lia. }
    rewrite prefix_append_le by lia.
    apply prefix_prefix. exact Hle.
Qed.

(** *** Run *)

Lemma Decode_error_kind (s : string) (e : error) :
  snd (hex.Decode s) = Some e → e = hex_ErrLength ∨ ∃ b, e = hex_InvalidByteError b.
Proof.
  induction s as [|p|p q rest IH] using hex_facts.string_pairs_ind;
    cbn [hex.Decode].
  - discriminate.
  - destruct (snd (hex.fromHexChar p)); cbn; intros [= <-]; eauto.
  - destruct (hex.fromHexChar p) as [a []]; cbn [negb]; [|cbn; intros [= <-]; eauto].
    destruct (hex.fromHexChar q) as [b []]; cbn [negb]; [|cbn; intros [= <-]; eauto].
    destruct (hex.Decode rest) as [dst err]. exact IH.
Qed.

(** A ready node never says it is not ready. *)
Lemma ready_no_more_not_ready (dht : DHT) (later : Z → option peersManager)
    (key : string) :
  Ready dht = true →
  snd (fst (FindNode dht later key)) ≠ Some (errors_New "dht not ready").
Proof.
  intros Hr. unfold FindNode. rewrite Hr. cbn [negb].
  destruct (FindNode_key key) as [key' [e|]] eqn:Hk.
  - cbn. intros [= ->]. unfold FindNode_key, hex.DecodeString in Hk.
    destruct (len key =? nodeIDLength * 2); [|discriminate].
    destruct (Decode_error_kind key (errors_New "dht not ready")) as [|[b ?]];
      [rewrite Hk; reflexivity|discriminate|discriminate].
  - destruct (negb _); [discriminate|]. destruct (poll _ _ _ _). discriminate.
Qed.

(** [join] looks at the configuration and at the identity of the node, and
    at nothing else. *)
Lemma join_same (d1 d2 : DHT) :
  config d1 = config d2 → dht_node d1 = dht_node d2 → join d1 = join d2.
Proof.
  intros Hcfg Hnode. unfold join. rewrite Hcfg.
  induction (PrimeNodes (config d2)) as [|a addrs IH]; [reflexivity|].
  cbn [join_range]. rewrite Hcfg, Hnode, IH. reflexivity.
Qed.

(** [init] with a socket: what it logs and starts, and what it leaves of the
    node it was given. *)
Lemma init_returns (dht : DHT) (c : UDPConn) :
  ListenPacket (Network (config dht)) (Address (config dht)) = (Some (UDP_conn c), None) →
  ∃ d,
    init dht
    = ([ su_do (ev_log (String.append "Initializing DHT on " (Address (config dht))));
         su_do (ev_log (String.append "Node ID is " (node_HexID (dht_node dht))));
         su_ListenPacket (Network (config dht)) (Address (config dht)) ]
       ++ [su_go_transactionManager_run; su_go_tokenManager_clear],
       Returns d)
    ∧ Ready d = Ready dht ∧ conn d = Some c
    ∧ config d = config dht ∧ dht_node d = dht_node dht
    ∧ packets d = packets dht ∧ workerTokens d = workerTokens dht.
Proof.
  intros Hsock. unfold init. rewrite Hsock.
  eexists. split; [reflexivity|]. repeat split.
Qed.

(** X17. How [Run] starts when the socket can be had.  In this order: the two
    log lines of [init], the socket, the goroutines of the transaction
    manager and of the token manager, the listening goroutine, the queries
    of [join], and only then the flag and the line "DHT ready".  The node
    that enters the loop is ready, holds the socket, and has the
    configuration, the identity and the queues it came with; [FindNode] on
    it no longer fails with "dht not ready". *)
Theorem Run_start_ready (dht : DHT) (c : UDPConn) :
  ListenPacket (Network (config dht)) (Address (config dht)) = (Some (UDP_conn c), None) →
  ∃ d,
    Run_start dht
    = ([ su_do (ev_log (String.append "Initializing DHT on " (Address (config dht))));
         su_do (ev_log (String.append "Node ID is " (node_HexID (dht_node dht))));
         su_ListenPacket (Network (config dht)) (Address (config dht));
         su_go_transactionManager_run; su_go_tokenManager_clear; su_go_listen ]
       ++ map su_do (join dht) ++ [su_do (ev_log "DHT ready")],
       Returns d)
    ∧ Ready d = true ∧ conn d = Some c
    ∧ config d = config dht ∧ dht_node d = dht_node dht
    ∧ packets d = packets dht ∧ workerTokens d = workerTokens dht
    ∧ ∀ later key,
        snd (fst (FindNode d later key)) ≠ Some (errors_New "dht not ready").
Proof.
  intros Hsock.
  destruct (init_returns dht c Hsock) as (d0 & Hinit & Hr0 & Hc0 & Hcfg & Hnode & Hp & Hw).
  unfold Run_start. rewrite Hinit. unfold Run_ready.
  rewrite (join_same d0 dht Hcfg Hnode).
  eexists. split; [rewrite <- app_assoc; reflexivity|].
  cbn [Ready conn config dht_node packets workerTokens].
  repeat split; try assumption.
  intros later key. apply ready_no_more_not_ready. reflexivity.
Qed.

(** X18. How [Run] ends when the socket cannot be had.  When
    [net.ListenPacket] returns an error, or a connection that is no UDP
    connection, [Run] panics after the two log lines and the attempt: it
    starts no goroutine, resolves no prime node and sends no query. *)
Theorem Run_start_panics (dht : DHT) :
  snd (ListenPacket (Network (config dht)) (Address (config dht))) ≠ None
  ∨ (∀ c, fst (ListenPacket (Network (config dht)) (Address (config dht)))
          ≠ Some (UDP_conn c)) →
  ∃ why,
    Run_start dht
    = ([ su_do (ev_log (String.append "Initializing DHT on " (Address (config dht))));
         su_do (ev_log (String.append "Node ID is " (node_HexID (dht_node dht))));
         su_ListenPacket (Network (config dht)) (Address (config dht)) ],
       Panics why).
Proof.
  intros Hbad. unfold Run_start, init.
  destruct (ListenPacket _ _) as [listener [e|]]; cbn [fst snd] in Hbad; [eauto|].
  destruct Hbad as [Hn|Hno]; [contradiction|].
  destruct listener as [[c|kind]|]; [|eauto|eauto].
  exfalso. exact (Hno c eq_refl).
Qed.

Lemma filter_none {A : Type} (f : A → bool) (l : list A) :
  (∀ x, In x l → f x = false) → List.filter f l = [].
Proof.
  induction l as [|x l IH]; [reflexivity|]. intros Hall. cbn.
  rewrite (Hall x (or_introl eq_refl)). apply IH. intros y Hy. apply Hall. right. exact Hy.
Qed.

Lemma join_handles_nothing (dht : DHT) :
  List.filter is_handle (join dht) = [] ∧ List.filter is_go_Fresh (join dht) = [].
Proof.
  split; apply filter_none; intros e Hin;
    destruct (join_range_events _ _ _ Hin) as [He|He]; destruct e; try discriminate;
    reflexivity.
Qed.

(** X19. The main loop over any run of wake-ups.  Every packet received is
    handed to [handle] once, in the order received, whatever ticks come in
    between; and a refresh is started at most once per tick. *)
Theorem Run_loop_packets (turns : list (DHT * wakeup)) :
  List.filter is_handle (Run_loop turns) = map ev_handle (received turns)
  ∧ (length (List.filter is_go_Fresh (Run_loop turns)) <= ticked turns)%nat.
Proof.
  unfold ticked. induction turns as [|[dht w] turns [IH1 IH2]]; [split; reflexivity|].
  cbn [Run_loop]. rewrite !List.filter_app, length_app.
  destruct w as [pkt|].
  - split; [cbn; rewrite IH1; reflexivity|]. cbn. exact IH2.
  - assert (List.filter is_handle (Run_select dht on_tick) = []
            ∧ (length (List.filter is_go_Fresh (Run_select dht on_tick)) <= 1)%nat)
      as [-> Hone].
    { cbn [Run_select]. destruct (routingTable_Len _ =? 0).
      - destruct (join_handles_nothing dht) as [-> ->]. split; [reflexivity|cbn; lia].
      - destruct (transactionManager_len _ =? 0); split; try reflexivity; cbn; lia. }
    split; [cbn; exact IH1|]. cbn [List.filter snd length]. lia.
Qed.

End more.

(** *** The theorems on the small package *)
Import dht_example dht_run_example.

Lemma FindNode_errors_witness :
  (Ready starting = false ∧ snd (fst (FindNode starting quiet key20)) ≠ None)
  ∧ (len key40 = nodeIDLength * 2 ∧ hex.valid_hex key40 = false ∧
     snd (fst (FindNode running quiet key40)) ≠ None)
  ∧ (FindNode running quiet key40 = ([], Some (hex_InvalidByteError "z"), [])
     ∧ ([] : list Peer) = [] ∧ ([] : trace) = []).
Proof.
  split; [|split].
  - split; [reflexivity|].
    apply (proj2 (proj1 (FindNode_errors starting quiet key20))). left. reflexivity.
  - split; [reflexivity|]. split; [reflexivity|].
    apply (proj2 (proj1 (FindNode_errors running quiet key40))). right.
    split; reflexivity.
  - split; [reflexivity|].
    apply (proj2 (FindNode_errors running quiet key40) []
             (hex_InvalidByteError "z") []). reflexivity.
Defined.

Lemma FindNode_queries_witness :
  In (ev_findNode {| id := Some "98765432109876543210"; addr := Some loopback |}
        key_unknown)
     (snd (FindNode running quiet key_unknown))
  ∧ Ready running = true
  ∧ FindNode_key key_unknown = (key_unknown, None)
  ∧ peersManager_GetPeers (dht_peersManager running) key_unknown (K (config running)) = []
  ∧ In {| id := Some "98765432109876543210"; addr := Some loopback |}
       (routingTable_GetNeighbors (dht_routingTable running)
          (newBitmapFromString key_unknown) (K (config running))).
Proof.
  assert (In (ev_findNode {| id := Some "98765432109876543210"; addr := Some loopback |}
                key_unknown)
             (snd (FindNode running quiet key_unknown))) as Hin.
  { vm_compute. right. right. left. reflexivity. }
  split; [exact Hin|].
  exact (FindNode_queries running quiet key_unknown _ _ Hin).
Defined.

Lemma FindNode_empty_handed_witness :
  FindNode running quiet key_unknown
  = ([], None, snd (FindNode running quiet key_unknown))
  ∧ Ready running = true
  ∧ ∃ key', FindNode_key key_unknown = (key', None)
      ∧ peersManager_GetPeers (dht_peersManager running) key' (K (config running)) = []
      ∧ (∀ j, 1 <= j <= 30 →
              peersManager_GetPeers (quiet j) key' (K (config running)) = [])
      ∧ length (List.filter is_tick (snd (FindNode running quiet key_unknown))) = 30%nat.
Proof.
  assert (FindNode running quiet key_unknown
          = ([], None, snd (FindNode running quiet key_unknown))) as Hrun
    by (vm_compute; reflexivity).
  split; [exact Hrun|].
  exact (FindNode_empty_handed running quiet key_unknown _ Hrun).
Defined.

Lemma FindNode_hex_case_witness :
  len (hex.EncodeToString key20) = nodeIDLength * 2
  ∧ upper_hex (hex.EncodeToString key20) = "6162636465666768696A6B6C6D6E6F7071727374"
  ∧ FindNode running quiet (upper_hex (hex.EncodeToString key20))
    = FindNode running quiet (hex.EncodeToString key20).
Proof.
  split; [reflexivity|]. split; [reflexivity|].
  apply (FindNode_hex_case running quiet (hex.EncodeToString key20)). reflexivity.
Defined.

Lemma New_not_started_witness :
  New None "01234567890123456789" = Returns fresh
  ∧ Ready fresh = false
  ∧ ∀ later key, FindNode fresh later key = ([], Some (errors_New "dht not ready"), []).
Proof.
  assert (New None "01234567890123456789" = Returns fresh) as Hnew by reflexivity.
  split; [exact Hnew|].
  destruct (New_not_started None "01234567890123456789" fresh Hnew)
    as (Hr & _ & _ & _ & _ & _ & _ & _ & Hfind).
  split; [exact Hr|exact Hfind].
Defined.


Lemma join_size_witness :
  PrimeNodes (config misconfigured) = [] ∧ join misconfigured = [].
Proof.
  split; [reflexivity|].
  apply (proj2 (proj2 (join_size misconfigured))). reflexivity.
Defined.

Lemma listen_packets_witness :
  ∃ buff t,
    listen [datagram "ping" (Some loopback); read_error hex_ErrLength;
            datagram "" None] = (buff, t, [])
    ∧ enqueued t = [ {| data := {| s_off := 0; s_len := 4 |}; raddr := Some loopback |};
                     {| data := {| s_off := 0; s_len := 0 |}; raddr := None |} ].
Proof.
  destruct (listen_packets [datagram "ping" (Some loopback); read_error hex_ErrLength;
                            datagram "" None]) as (buff & t & Hrun & _ & Hq & _).
  exists buff, t. split; [exact Hrun|]. rewrite Hq. reflexivity.
Defined.

Lemma listen_overwrites_witness :
  (String.length "ping" <= String.length "PONG!")%nat
  ∧ ∃ buff1 buff2 t p q,
      listen ([] ++ [datagram "ping" (Some loopback)])
      = (buff1, t ++ [ev_ReadFromUDP; ev_enqueue p], [])
      ∧ slice_bytes buff1 (data p) = String.substring 0 (Z.to_nat 8192) "ping"
      ∧ listen ([] ++ [datagram "ping" (Some loopback); datagram "PONG!" None])
        = (buff2,
           t ++ [ev_ReadFromUDP; ev_enqueue p; ev_ReadFromUDP; ev_enqueue q], [])
      ∧ slice_bytes buff2 (data p)
        = String.substring 0 (Z.to_nat (s_len (data p))) "PONG!".
Proof.
  assert (String.length "ping" <= String.length "PONG!")%nat as Hle by (cbn; lia).
  split; [exact Hle|].
  exact (listen_overwrites [] "ping" "PONG!" (Some loopback) None Hle).
Defined.

Lemma Run_start_ready_witness :
  ListenPacket (Network (config fresh)) (Address (config fresh))
  = (Some (UDP_conn ()), None)
  ∧ ∃ d, snd (Run_start fresh) = Returns d ∧ Ready d = true ∧ conn d = Some ().
Proof.
  assert (ListenPacket (Network (config fresh)) (Address (config fresh))
          = (Some (UDP_conn ()), None)) as Hsock by reflexivity.
  split; [exact Hsock|].
  destruct (Run_start_ready fresh () Hsock) as (d & Hrun & Hr & Hc & _).
  exists d. rewrite Hrun. auto.
Defined.

Lemma Run_start_panics_witness :
  snd (ListenPacket (Network (config misconfigured)) (Address (config misconfigured)))
  ≠ None
  ∧ ∃ why,
      Run_start misconfigured
      = ([ su_do (ev_log "Initializing DHT on /tmp/dht.sock");
           su_do (ev_log (String.append "Node ID is "
                            (node_HexID (dht_node misconfigured))));
           su_ListenPacket "unixgram" "/tmp/dht.sock" ],
         Panics why).
Proof.
  assert (snd (ListenPacket (Network (config misconfigured))
                 (Address (config misconfigured))) ≠ None) as Hbad
    by (vm_compute; discriminate).
  split; [exact Hbad|].
  exact (Run_start_panics misconfigured (or_introl Hbad)).
Defined.

End dht_more.
